(** * The scanner of compiler_chpy (src/source/scanner.h)

    A shallow embedding of the classes [Token] and [Scanner] and the
    properties of [Scanner::getNextToken].

    Conventions of the embedding.
    - [std::size_t] is a 64-bit unsigned integer: a value of [N], every
      increment and decrement reduced modulo [2^64] ([wrap]).
    - [char] is [ascii]; [std::string] is [string].
    - The member functions that change the scanner are computations in a
      state monad over [Scanner], [M].  A computation ends in one of
      four ways.  It completes ([Done]).  It runs into one of the two
      operations of the source whose behaviour C++ leaves undefined, and
      fails: a subscript beyond the terminator of the source
      ([BadIndex]), or the closing brace of [getNextToken] reached
      without a [return] statement ([NoReturn]).  Or one of its loops
      has not finished within the iterations it was given
      ([OutOfFuel]).
    - The arms of the [switch] each declare [char nextChar]; they are
      embedded with one binding per arm. *)

From Stdlib Require Import NArith Ascii String List Bool Lia.
Import ListNotations.

#[local] Open Scope string_scope.
#[local] Open Scope N_scope.

(* ================================================================== *)
(** ** Token kinds and tokens *)

(** Modelled from the spec: tokens.h, which declares [TokenType], is not
    part of the sources at hand.  The enumerators up to [KW_YIELD] are the
    ones scanner.h names.  The last four are kinds the specification
    speaks of and scanner.h never builds: the one-character division
    operator, the numeric literal, the string literal and the error
    token. *)
Inductive TokenType : Type :=
| END_OF_FILE
| PLUS | MINUS | ARROW | ASTERISK | DOUBLE_SLASH | MODULO
| LESS | LESS_EQUAL | GREATER | GREATER_EQUAL | ASSIGN | EQUALS | NOT_EQUAL
| LEFT_PAREN | RIGHT_PAREN | LEFT_BRACKET | RIGHT_BRACKET
| COMMA | COLON | DOT
| IDENTIFIER
| KW_FALSE | KW_NONE | KW_TRUE | KW_AND | KW_AS | KW_ASSERT | KW_ASYNC
| KW_AWAIT | KW_BREAK | KW_CLASS | KW_CONTINUE | KW_DEF | KW_DEL | KW_ELIF
| KW_ELSE | KW_EXCEPT | KW_FINALLY | KW_FOR | KW_FROM | KW_GLOBAL | KW_IF
| KW_IMPORT | KW_IN | KW_IS | KW_LAMBDA | KW_NONLOCAL | KW_NOT | KW_OR
| KW_PASS | KW_RAISE | KW_RETURN | KW_TRY | KW_WHILE | KW_WITH | KW_YIELD
| SLASH | NUMBER | STRING | ERROR.

(** [class Token]: the three private members, named after their getters. *)
Record Token : Type := mkToken {
  getType : TokenType;
  getLexeme : string;
  getLine : N
}.

(* ================================================================== *)
(** ** Machine integers and characters *)

(** [std::size_t] arithmetic is modulo [2^64]. *)
Definition wrap (n : N) : N := n mod 2 ^ 64.

(** [std::string::npos], the largest [size_t]; [max_size()] of every
    [std::string] lies below it. *)
Definition npos : N := 2 ^ 64 - 1.

Definition length (src : string) : N := N.of_nat (String.length src).

(** A source text that a [std::string] can hold. *)
Definition valid_source (src : string) : Prop := length src < npos.

Definition NUL : ascii := "000"%char.
Definition TAB : ascii := "009"%char.
Definition LF : ascii := "010"%char.
Definition CR : ascii := "013"%char.
Definition DQUOTE : ascii := "034"%char.
Definition SQUOTE : ascii := "039"%char.

Definition in_range (lo hi : N) (c : ascii) : bool :=
  (lo <=? N_of_ascii c) && (N_of_ascii c <=? hi).

(** [std::isdigit], [std::isalpha] and [std::isalnum] in the "C" locale,
    the one in force as long as the program does not call [setlocale]. *)
Definition isdigit (c : ascii) : bool := in_range 48 57 c.
Definition isalpha (c : ascii) : bool := in_range 65 90 c || in_range 97 122 c.
Definition isalnum (c : ascii) : bool := isalpha c || isdigit c.

(** [Scanner::isAlpha] and [Scanner::isAlphaNumeric]. *)
Definition isAlpha (c : ascii) : bool := isalpha c || (c =? "_")%char.
Definition isAlphaNumeric (c : ascii) : bool := isalnum c || (c =? "_")%char.

(* ================================================================== *)
(** ** The scanner state and its monad *)

Record Scanner : Type := mkScanner {
  sourceCode_ : string;
  currentPosition_ : N;
  line_ : N
}.

(** [Scanner::Scanner(const std::string&)]. *)
Definition Scanner_new (sourceCode : string) : Scanner :=
  {| sourceCode_ := sourceCode; currentPosition_ := 0; line_ := 1 |}.

Inductive Outcome (A : Type) : Type :=
| Done (a : A) (s : Scanner)
| BadIndex (i : N)
| NoReturn
| OutOfFuel.
Arguments Done {A} a s.
Arguments BadIndex {A} i.
Arguments NoReturn {A}.
Arguments OutOfFuel {A}.

Definition M (A : Type) : Type := Scanner -> Outcome A.

Definition ret {A} (a : A) : M A := fun s => Done a s.

Definition bind {A B} (m : M A) (k : A -> M B) : M B :=
  fun s =>
    match m s with
    | Done a s' => k a s'
    | BadIndex i => BadIndex i
    | NoReturn => NoReturn
    | OutOfFuel => OutOfFuel
    end.

Notation "x <- m ;; k" := (bind m (fun x => k))
  (at level 61, m at next level, right associativity).
Notation "m ;; k" := (bind m (fun _ => k))
  (at level 61, right associativity).

(** Reading a member, or the result of a [const] member function. *)
Definition gets {A} (f : Scanner -> A) : M A := fun s => Done (f s) s.

Definition out_of_fuel {A} : M A := fun _ => OutOfFuel.

(** Control reaches the end of a function that has to return a value. *)
Definition no_return {A} : M A := fun _ => NoReturn.

(** [currentPosition_++] and [line_++], for their effect. *)
Definition advance : M unit := fun s =>
  Done tt {| sourceCode_ := sourceCode_ s;
             currentPosition_ := wrap (currentPosition_ s + 1);
             line_ := line_ s |}.

Definition newline : M unit := fun s =>
  Done tt {| sourceCode_ := sourceCode_ s;
             currentPosition_ := currentPosition_ s;
             line_ := wrap (line_ s + 1) |}.

(** [src[i]], [std::string::operator[]]: the character at [i] below the
    length, the terminating null character at the length itself, and
    undefined behaviour beyond. *)
Definition subscript (src : string) (i : N) : option ascii :=
  if i <? length src then String.get (N.to_nat i) src
  else if i =? length src then Some NUL
  else None.

(** [sourceCode_[i]]. *)
Definition at_ (i : N) : M ascii := fun s =>
  match subscript (sourceCode_ s) i with
  | Some c => Done c s
  | None => BadIndex i
  end.

(* ================================================================== *)
(** ** The member functions of [Scanner] *)

Definition isAtEnd (s : Scanner) : bool :=
  length (sourceCode_ s) <=? currentPosition_ s.

(** [return sourceCode_[currentPosition_++];] the subscript is the value
    of the cursor before the increment. *)
Definition getChar : M ascii :=
  p <- gets currentPosition_ ;;
  advance ;;
  at_ p.

Definition peekChar : M ascii :=
  e <- gets isAtEnd ;;
  if e then ret NUL
  else
    p <- gets currentPosition_ ;;
    at_ (wrap (p + 1)).

(** [Scanner::match]. *)
Definition match_ (peek expected : ascii) : M bool :=
  e <- gets isAtEnd ;;
  if e || negb (peek =? expected)%char then ret false
  else advance ;; ret true.

(** Every loop of the scanner moves the cursor forward in each iteration
    but its last, so one iteration more than the source has characters is
    what a loop is given. *)
Definition loop_fuel (s : Scanner) : nat := S (String.length (sourceCode_ s)).

(** The inner loop of [skipWhitespaceAndComments]:
    [while (!isAtEnd() && sourceCode_[currentPosition_] != '\n')]. *)
Fixpoint skipCommentLoop (fuel : nat) : M unit :=
  match fuel with
  | O => out_of_fuel
  | S fuel' =>
      e <- gets isAtEnd ;;
      if e then ret tt
      else
        p <- gets currentPosition_ ;;
        c <- at_ p ;;
        if (c =? LF)%char then ret tt
        else advance ;; skipCommentLoop fuel'
  end.

Definition skipComment : M unit :=
  fun s => skipCommentLoop (loop_fuel s) s.

(** The outer loop of [skipWhitespaceAndComments]. *)
Fixpoint skipLoop (fuel : nat) : M unit :=
  match fuel with
  | O => out_of_fuel
  | S fuel' =>
      e <- gets isAtEnd ;;
      if e then ret tt
      else
        p <- gets currentPosition_ ;;
        c <- at_ p ;;
        if (c =? " ")%char || (c =? TAB)%char || (c =? CR)%char then
          advance ;; skipLoop fuel'
        else if (c =? LF)%char then
          advance ;; newline ;; skipLoop fuel'
        else if (c =? "#")%char then
          skipComment ;; skipLoop fuel'
        else ret tt
  end.

Definition skipWhitespaceAndComments : M unit :=
  fun s => skipLoop (loop_fuel s) s.

Definition getKeywordType (lexeme : string) : TokenType :=
  if (lexeme =? "false")%string then KW_FALSE
  else if (lexeme =? "none")%string then KW_NONE
  else if (lexeme =? "true")%string then KW_TRUE
  else if (lexeme =? "and")%string then KW_AND
  else if (lexeme =? "as")%string then KW_AS
  else if (lexeme =? "assert")%string then KW_ASSERT
  else if (lexeme =? "async")%string then KW_ASYNC
  else if (lexeme =? "await")%string then KW_AWAIT
  else if (lexeme =? "break")%string then KW_BREAK
  else if (lexeme =? "class")%string then KW_CLASS
  else if (lexeme =? "continue")%string then KW_CONTINUE
  else if (lexeme =? "def")%string then KW_DEF
  else if (lexeme =? "del")%string then KW_DEL
  else if (lexeme =? "elif")%string then KW_ELIF
  else if (lexeme =? "else")%string then KW_ELSE
  else if (lexeme =? "except")%string then KW_EXCEPT
  else if (lexeme =? "finally")%string then KW_FINALLY
  else if (lexeme =? "for")%string then KW_FOR
  else if (lexeme =? "from")%string then KW_FROM
  else if (lexeme =? "global")%string then KW_GLOBAL
  else if (lexeme =? "if")%string then KW_IF
  else if (lexeme =? "import")%string then KW_IMPORT
  else if (lexeme =? "in")%string then KW_IN
  else if (lexeme =? "is")%string then KW_IS
  else if (lexeme =? "lambda")%string then KW_LAMBDA
  else if (lexeme =? "nonlocal")%string then KW_NONLOCAL
  else if (lexeme =? "not")%string then KW_NOT
  else if (lexeme =? "or")%string then KW_OR
  else if (lexeme =? "pass")%string then KW_PASS
  else if (lexeme =? "raise")%string then KW_RAISE
  else if (lexeme =? "return")%string then KW_RETURN
  else if (lexeme =? "try")%string then KW_TRY
  else if (lexeme =? "while")%string then KW_WHILE
  else if (lexeme =? "with")%string then KW_WITH
  else if (lexeme =? "yield")%string then KW_YIELD
  else IDENTIFIER.

(** The condition of the loop of [scanIdentifier] after [!isAtEnd() &&]:
    [isAlphaNumeric(sourceCode_[currentPosition_]) ||
     sourceCode_[currentPosition_] == '_'], the second read made only when
    the first test fails. *)
Definition identifierContinues : M bool :=
  p <- gets currentPosition_ ;;
  c <- at_ p ;;
  if isAlphaNumeric c then ret true
  else
    c' <- at_ p ;;
    ret (c' =? "_")%char.

(** The loop of [scanIdentifier]; [lexeme += getChar()]. *)
Fixpoint scanIdentifierLoop (fuel : nat) (lexeme : string) : M string :=
  match fuel with
  | O => out_of_fuel
  | S fuel' =>
      e <- gets isAtEnd ;;
      if e then ret lexeme
      else
        more <- identifierContinues ;;
        if more then
          c <- getChar ;;
          scanIdentifierLoop fuel' (lexeme ++ String c "")
        else ret lexeme
  end.

Definition scanIdentifier : M Token :=
  p <- gets currentPosition_ ;;
  c <- at_ (wrap (p + (2 ^ 64 - 1))) ;;      (* currentPosition_ - 1 *)
  fuel <- gets loop_fuel ;;
  lexeme <- scanIdentifierLoop fuel (String c "") ;;
  l <- gets line_ ;;
  ret (mkToken (getKeywordType lexeme) lexeme l).

(** [return Token(type, lexeme, line_);] *)
Definition token (type : TokenType) (lexeme : string) : M Token :=
  l <- gets line_ ;;
  ret (mkToken type lexeme l).

(** The arms [-], [<], [>] and [=]: [peekChar], then [match] against the
    second character of the long form. *)
Definition oneOrTwo (expected : ascii)
    (long : TokenType) (longLexeme : string)
    (short : TokenType) (shortLexeme : string) : M Token :=
  nextChar <- peekChar ;;
  m <- match_ nextChar expected ;;
  if m then token long longLexeme else token short shortLexeme.

(** The [switch (c)] of [getNextToken], [c] being the character just
    consumed. *)
Definition dispatch (c : ascii) : M Token :=
  if (c =? "+")%char then token PLUS "+"
  else if (c =? "-")%char then oneOrTwo ">" ARROW "->" MINUS "-"
  else if (c =? "*")%char then token ASTERISK "*"
  else if (c =? "/")%char then token DOUBLE_SLASH "//"
  else if (c =? "%")%char then token MODULO "%"
  else if (c =? "<")%char then oneOrTwo "=" LESS_EQUAL "<=" LESS "<"
  else if (c =? ">")%char then oneOrTwo "=" GREATER_EQUAL ">=" GREATER ">"
  else if (c =? "=")%char then oneOrTwo "=" EQUALS "==" ASSIGN "="
  else if (c =? "!")%char then
    (* the else branch is empty and the arm has no break: control
       continues into [case '('] *)
    oneOrTwo "=" NOT_EQUAL "!=" LEFT_PAREN "("
  else if (c =? "(")%char then token LEFT_PAREN "("
  else if (c =? ")")%char then token RIGHT_PAREN ")"
  else if (c =? "[")%char then token LEFT_BRACKET "["
  else if (c =? "]")%char then token RIGHT_BRACKET "]"
  else if (c =? ",")%char then token COMMA ","
  else if (c =? ":")%char then token COLON ":"
  else if (c =? ".")%char then token DOT "."
  else if isAlpha c then scanIdentifier
  else
    (* the end of the switch and of the function, with no return *)
    no_return.

Definition getNextToken : M Token :=
  skipWhitespaceAndComments ;;
  e <- gets isAtEnd ;;
  if e then token END_OF_FILE ""
  else
    c <- getChar ;;
    dispatch c.

(** A caller that pulls [n] tokens, one [getNextToken] call after the
    other. *)
Fixpoint pull (n : nat) : M (list Token) :=
  match n with
  | O => ret []
  | S n' =>
      t <- getNextToken ;;
      ts <- pull n' ;;
      ret (t :: ts)
  end.

(* ================================================================== *)
(** ** Vocabulary of the properties *)

(** The characters at which [skipWhitespaceAndComments] does not stop. *)
Definition starts_skipped (c : ascii) : bool :=
  (c =? " ")%char || (c =? TAB)%char || (c =? CR)%char || (c =? LF)%char
  || (c =? "#")%char.

Fixpoint string_forallb (f : ascii -> bool) (w : string) : bool :=
  match w with
  | EmptyString => true
  | String c w' => f c && string_forallb f w'
  end.

(** What follows a maximal run of identifier characters: the end of the
    source, or a character that is not an identifier character. *)
Definition run_ends (post : string) : bool :=
  match post with
  | EmptyString => true
  | String d _ => negb (isAlphaNumeric d)
  end.

(** The keyword table as the specification gives it: the 35 reserved
    words, each with its own kind. *)
Definition reserved : list (string * TokenType) :=
  [ ("and", KW_AND); ("as", KW_AS); ("assert", KW_ASSERT);
    ("async", KW_ASYNC); ("await", KW_AWAIT); ("break", KW_BREAK);
    ("class", KW_CLASS); ("continue", KW_CONTINUE); ("def", KW_DEF);
    ("del", KW_DEL); ("elif", KW_ELIF); ("else", KW_ELSE);
    ("except", KW_EXCEPT); ("false", KW_FALSE); ("finally", KW_FINALLY);
    ("for", KW_FOR); ("from", KW_FROM); ("global", KW_GLOBAL);
    ("if", KW_IF); ("import", KW_IMPORT); ("in", KW_IN); ("is", KW_IS);
    ("lambda", KW_LAMBDA); ("none", KW_NONE); ("nonlocal", KW_NONLOCAL);
    ("not", KW_NOT); ("or", KW_OR); ("pass", KW_PASS); ("raise", KW_RAISE);
    ("return", KW_RETURN); ("true", KW_TRUE); ("try", KW_TRY);
    ("while", KW_WHILE); ("with", KW_WITH); ("yield", KW_YIELD) ].

Definition reserved_words : list string := map fst reserved.

(** [classify] of the specification: the kind the table gives for an
    exact match, the identifier kind for any other text. *)
Definition classify (w : string) : TokenType :=
  match find (fun entry => (w =? fst entry)%string) reserved with
  | Some entry => snd entry
  | None => IDENTIFIER
  end.

(** A text made of spaces, tabs, carriage returns, newlines and
    comments only; a comment runs from a [#] to the end of its line.
    [in_comment] tells whether the text starts inside a comment. *)
Fixpoint blank_from (in_comment : bool) (src : string) : bool :=
  match src with
  | EmptyString => true
  | String c rest =>
      if in_comment then blank_from (negb (c =? LF)%char) rest
      else if (c =? " ")%char || (c =? TAB)%char || (c =? CR)%char
              || (c =? LF)%char then blank_from false rest
      else if (c =? "#")%char then blank_from true rest
      else false
  end.

Definition blank (src : string) : bool := blank_from false src.

Fixpoint count_newlines (src : string) : N :=
  match src with
  | EmptyString => 0
  | String c rest => (if (c =? LF)%char then 1 else 0) + count_newlines rest
  end.

(** What follows the body of a comment: the end of the source or a
    newline. *)
Definition comment_ends (rest : string) : bool :=
  match rest with
  | EmptyString => true
  | String d _ => (d =? LF)%char
  end.

Definition not_newline (c : ascii) : bool := negb (c =? LF)%char.

(** The scanner with its cursor [k] characters further on. *)
Definition moved (k : N) (s : Scanner) : Scanner :=
  {| sourceCode_ := sourceCode_ s;
     currentPosition_ := currentPosition_ s + k;
     line_ := line_ s |}.

(** [m] completes from [s], and its result and final state satisfy [Q]. *)
Definition yields {A} (m : M A) (s : Scanner) (Q : A -> Scanner -> Prop) : Prop :=
  exists a s', m s = Done a s' /\ Q a s'.

(** The cursor of [s'] is the cursor of [s] moved forward over the same
    source. *)
Definition grows (s s' : Scanner) : Prop :=
  sourceCode_ s' = sourceCode_ s /\ currentPosition_ s <= currentPosition_ s'.

(** What is left of the source in front of the cursor. *)
Definition remaining (s : Scanner) : nat :=
  String.length (sourceCode_ s) - N.to_nat (currentPosition_ s).

(** The arms of the switch that return at once: the kind each of the
    ten characters is given. *)
Definition single_char_kind (c : ascii) : option TokenType :=
  if (c =? "+")%char then Some PLUS
  else if (c =? "*")%char then Some ASTERISK
  else if (c =? "%")%char then Some MODULO
  else if (c =? "(")%char then Some LEFT_PAREN
  else if (c =? ")")%char then Some RIGHT_PAREN
  else if (c =? "[")%char then Some LEFT_BRACKET
  else if (c =? "]")%char then Some RIGHT_BRACKET
  else if (c =? ",")%char then Some COMMA
  else if (c =? ":")%char then Some COLON
  else if (c =? ".")%char then Some DOT
  else None.

(** The arms for [-], [<], [>] and [=]: the character [match] is
    given, the long form and the short form. *)
Definition operator_forms (c : ascii)
  : option (ascii * (TokenType * string) * (TokenType * string)) :=
  if (c =? "-")%char then Some (">"%char, (ARROW, "->"), (MINUS, "-"))
  else if (c =? "<")%char then Some ("="%char, (LESS_EQUAL, "<="), (LESS, "<"))
  else if (c =? ">")%char then Some ("="%char, (GREATER_EQUAL, ">="), (GREATER, ">"))
  else if (c =? "=")%char then Some ("="%char, (EQUALS, "=="), (ASSIGN, "="))
  else None.

(** The test the operator arms make in effect, seen from the state
    before the call: the operator at the cursor is not the last
    character of the source, and the character two places behind the
    cursor is [expected]. *)
Definition lookahead_hits (expected : ascii) (s : Scanner) : bool :=
  (currentPosition_ s + 1 <? length (sourceCode_ s))
  && match subscript (sourceCode_ s) (currentPosition_ s + 2) with
     | Some d => (d =? expected)%char
     | None => false
     end.

(** A blank text that does not end inside a comment. *)
Fixpoint closed_from (in_comment : bool) (ws : string) : bool :=
  match ws with
  | EmptyString => negb in_comment
  | String c rest =>
      if in_comment then closed_from (negb (c =? LF)%char) rest
      else closed_from (c =? "#")%char rest
  end.

(** What [skipWhitespaceAndComments] stops in front of: the end of the
    source, or a character it does not skip. *)
Definition starts_token (rest : string) : bool :=
  match rest with
  | EmptyString => true
  | String d _ => negb (starts_skipped d)
  end.

(** The cursor lies within the source or at its end. *)
Definition within (s : Scanner) : Prop :=
  currentPosition_ s <= length (sourceCode_ s).


(* ================================================================== *)
(** ** Arithmetic of cursors *)

Arguments wrap : simpl never.
Arguments length : simpl never.

Lemma wrap_small (n : N) : n < 2 ^ 64 -> wrap n = n.
Proof. intros H. unfold wrap. now apply N.mod_small. Qed.

Lemma wrap_pred (n : N) : 0 < n -> n < 2 ^ 64 -> wrap (n + (2 ^ 64 - 1)) = n - 1.
Proof.
  intros H0 H. unfold wrap.
  replace (n + (2 ^ 64 - 1)) with ((n - 1) + 1 * 2 ^ 64) by lia.
  rewrite N.Div0.mod_add. apply N.mod_small. lia.
Qed.

Lemma isAtEnd_false (s : Scanner) :
  isAtEnd s = false <-> currentPosition_ s < length (sourceCode_ s).
Proof. unfold isAtEnd. rewrite N.leb_gt. reflexivity. Qed.

Lemma isAtEnd_true (s : Scanner) :
  isAtEnd s = true <-> length (sourceCode_ s) <= currentPosition_ s.
Proof. unfold isAtEnd. rewrite N.leb_le. reflexivity. Qed.

Lemma advance_inside (s : Scanner) :
  valid_source (sourceCode_ s) -> isAtEnd s = false ->
  advance s = Done tt (moved 1 s).
Proof.
  intros V E. apply isAtEnd_false in E. unfold valid_source, npos in V.
  unfold advance, moved. rewrite wrap_small by lia. reflexivity.
Qed.

(* ================================================================== *)
(** ** Subscripts *)

Lemma get_some (src : string) (n : nat) :
  (n < String.length src)%nat -> exists c, String.get n src = Some c.
Proof.
  revert n. induction src as [|a src IH]; intros n H; simpl in H.
  - lia.
  - destruct n as [|n]; simpl.
    + now exists a.
    + apply IH. lia.
Qed.

Lemma subscript_le (src : string) (i : N) :
  i <= length src -> exists c, subscript src i = Some c.
Proof.
  intros H. unfold subscript.
  destruct (N.ltb_spec i (length src)) as [L|L].
  - apply get_some. unfold length in L. lia.
  - exists NUL. replace (i =? length src) with true; [reflexivity|].
    symmetry. apply N.eqb_eq. lia.
Qed.

Lemma subscript_gt (src : string) (i : N) :
  length src < i -> subscript src i = None.
Proof.
  intros H. unfold subscript.
  destruct (N.ltb_spec i (length src)) as [L|L]; [lia|].
  destruct (N.eqb_spec i (length src)); [lia|reflexivity].
Qed.

Lemma get_append (pre : string) (c : ascii) (post : string) :
  String.get (String.length pre) (pre ++ String c post) = Some c.
Proof. induction pre as [|a pre IH]; simpl; [reflexivity|exact IH]. Qed.

Lemma length_append (a b : string) : length (a ++ b) = length a + length b.
Proof.
  unfold length. rewrite <- Nat2N.inj_add. f_equal.
  induction a as [|x a IH]; simpl; [reflexivity|now rewrite IH].
Qed.

Lemma length_String (c : ascii) (a : string) : length (String c a) = 1 + length a.
Proof. unfold length. simpl String.length. lia. Qed.

Lemma length_empty : length "" = 0.
Proof. reflexivity. Qed.

Lemma subscript_append (pre : string) (c : ascii) (post : string) :
  subscript (pre ++ String c post) (length pre) = Some c.
Proof.
  unfold subscript.
  rewrite length_append, length_String.
  destruct (N.ltb_spec (length pre) (length pre + (1 + length post))); [|lia].
  unfold length at 1. rewrite Nat2N.id. apply get_append.
Qed.

Lemma append_assoc (a b c : string) : ((a ++ b) ++ c = a ++ (b ++ c))%string.
Proof. induction a as [|x a IH]; simpl; [reflexivity|now rewrite IH]. Qed.

Lemma append_empty_r (a : string) : (a ++ "")%string = a.
Proof. induction a as [|x a IH]; simpl; [reflexivity|now rewrite IH]. Qed.

(* ================================================================== *)
(** ** Cursors over the same source *)

Lemma grows_refl (s : Scanner) : grows s s.
Proof. split; [reflexivity|lia]. Qed.

Lemma grows_trans (s1 s2 s3 : Scanner) : grows s1 s2 -> grows s2 s3 -> grows s1 s3.
Proof. intros [A B] [C D]. split; [congruence|lia]. Qed.

Lemma grows_moved (s : Scanner) (k : N) : grows s (moved k s).
Proof. split; simpl; [reflexivity|lia]. Qed.

Lemma grows_valid (s s' : Scanner) :
  grows s s' -> valid_source (sourceCode_ s) -> valid_source (sourceCode_ s').
Proof. intros [A _] V. now rewrite A. Qed.

Create HintDb scanner.
#[local] Hint Resolve grows_refl grows_moved : scanner.

(** Unfolding one layer of a computation applied to a state. *)
Ltac run := unfold bind, gets, ret, out_of_fuel, no_return; cbn beta iota.

(* ================================================================== *)
(** ** Every call completes: the primitives *)

Lemma at_inside (i : N) (s : Scanner) :
  i <= length (sourceCode_ s) ->
  exists c, subscript (sourceCode_ s) i = Some c /\ at_ i s = Done c s.
Proof.
  intros H. destruct (subscript_le _ _ H) as [c E].
  exists c. split; [exact E|]. unfold at_. now rewrite E.
Qed.

Lemma getChar_inside (s : Scanner) :
  valid_source (sourceCode_ s) -> isAtEnd s = false ->
  exists c, subscript (sourceCode_ s) (currentPosition_ s) = Some c
            /\ getChar s = Done c (moved 1 s).
Proof.
  intros V E.
  destruct (at_inside (currentPosition_ s) s) as (c & Ec & _).
  { apply isAtEnd_false in E. lia. }
  exists c. split; [exact Ec|].
  unfold getChar. run. rewrite (advance_inside s V E).
  unfold at_. cbn [moved sourceCode_]. now rewrite Ec.
Qed.

Lemma peekChar_total (s : Scanner) :
  valid_source (sourceCode_ s) -> exists c, peekChar s = Done c s.
Proof.
  intros V. unfold peekChar. run.
  destruct (isAtEnd s) eqn:E; run.
  - now exists NUL.
  - apply isAtEnd_false in E. unfold valid_source, npos in V.
    rewrite wrap_small by lia.
    destruct (at_inside (currentPosition_ s + 1) s) as (c & _ & Ec); [lia|].
    now exists c.
Qed.

Lemma match_total (peek expected : ascii) (s : Scanner) :
  valid_source (sourceCode_ s) ->
  exists b s', match_ peek expected s = Done b s'
               /\ (s' = s \/ (isAtEnd s = false /\ s' = moved 1 s)).
Proof.
  intros V. unfold match_. run.
  destruct (isAtEnd s) eqn:E; cbn [orb]; run.
  - exists false, s. auto.
  - destruct (peek =? expected)%char; cbn [negb]; run.
    + rewrite (advance_inside s V E). exists true, (moved 1 s). auto.
    + exists false, s. auto.
Qed.

Lemma token_total (type : TokenType) (lexeme : string) (s : Scanner) :
  token type lexeme s = Done (mkToken type lexeme (line_ s)) s.
Proof. reflexivity. Qed.

Lemma oneOrTwo_total (expected : ascii) (long : TokenType) (longLexeme : string)
    (short : TokenType) (shortLexeme : string) (s : Scanner) :
  valid_source (sourceCode_ s) ->
  yields (oneOrTwo expected long longLexeme short shortLexeme) s
         (fun _ s' => grows s s').
Proof.
  intros V. unfold oneOrTwo.
  destruct (peekChar_total s V) as [c Ec].
  unfold yields. run. rewrite Ec.
  destruct (match_total c expected s V) as (b & s' & Em & Hs').
  rewrite Em.
  assert (G : grows s s') by (destruct Hs' as [->|[_ ->]]; auto with scanner).
  destruct b; rewrite token_total; eauto.
Qed.

(* ================================================================== *)
(** ** Every call completes: the loops *)

Lemma remaining_moved (s : Scanner) :
  isAtEnd s = false -> remaining s = S (remaining (moved 1 s)).
Proof.
  intros E. apply isAtEnd_false in E. unfold remaining, length in *.
  cbn [moved sourceCode_ currentPosition_]. lia.
Qed.

Lemma remaining_fuel (s : Scanner) : (remaining s < loop_fuel s)%nat.
Proof. unfold remaining, loop_fuel. lia. Qed.

Lemma skipCommentLoop_total (fuel : nat) (s : Scanner) :
  valid_source (sourceCode_ s) -> (remaining s < fuel)%nat ->
  yields (skipCommentLoop fuel) s (fun _ s' =>
    grows s s' /\ line_ s' = line_ s /\
    forall c, isAtEnd s = false ->
              subscript (sourceCode_ s) (currentPosition_ s) = Some c ->
              (c =? LF)%char = false ->
              currentPosition_ s < currentPosition_ s').
Proof.
  revert s. induction fuel as [|fuel IH]; intros s V F; [lia|].
  unfold yields. cbn [skipCommentLoop]. run.
  destruct (isAtEnd s) eqn:E.
  - exists tt, s. split; [reflexivity|]. split; [apply grows_refl|].
    split; [reflexivity|]. intros c A. discriminate A.
  - destruct (at_inside (currentPosition_ s) s) as (c & Ec & Ea).
    { apply isAtEnd_false in E. lia. }
    rewrite Ea. destruct (c =? LF)%char eqn:El.
    + exists tt, s. split; [reflexivity|]. split; [apply grows_refl|].
      split; [reflexivity|]. intros c' _ Ec' El'. congruence.
    + rewrite (advance_inside s V E).
      destruct (IH (moved 1 s)) as (u & s' & Es & G & L & _).
      { exact V. }
      { rewrite (remaining_moved s E) in F. lia. }
      exists u, s'. split; [exact Es|]. split; [|split].
      * eapply grows_trans; [apply grows_moved|exact G].
      * rewrite L. reflexivity.
      * intros _ _ _ _. destruct G as [_ G]. cbn [moved currentPosition_] in G. lia.
Qed.

Lemma skipComment_total (s : Scanner) :
  valid_source (sourceCode_ s) ->
  yields skipComment s (fun _ s' =>
    grows s s' /\ line_ s' = line_ s /\
    forall c, isAtEnd s = false ->
              subscript (sourceCode_ s) (currentPosition_ s) = Some c ->
              (c =? LF)%char = false ->
              currentPosition_ s < currentPosition_ s').
Proof.
  intros V. unfold skipComment.
  apply (skipCommentLoop_total (loop_fuel s) s V (remaining_fuel s)).
Qed.

Lemma skipLoop_total (fuel : nat) (s : Scanner) :
  valid_source (sourceCode_ s) -> (remaining s < fuel)%nat ->
  yields (skipLoop fuel) s (fun _ s' => grows s s').
Proof.
  revert s. induction fuel as [|fuel IH]; intros s V F; [lia|].
  unfold yields. cbn [skipLoop]. run.
  destruct (isAtEnd s) eqn:E.
  { exists tt, s. auto with scanner. }
  destruct (at_inside (currentPosition_ s) s) as (c & Ec & Ea).
  { apply isAtEnd_false in E. lia. }
  rewrite Ea.
  assert (Step : forall l, exists u s',
            skipLoop fuel {| sourceCode_ := sourceCode_ s;
                             currentPosition_ := currentPosition_ s + 1;
                             line_ := l |} = Done u s'
            /\ grows s s').
  { intros l.
    destruct (IH {| sourceCode_ := sourceCode_ s;
                    currentPosition_ := currentPosition_ s + 1;
                    line_ := l |}) as (u & s' & Es & G).
    { exact V. }
    { apply isAtEnd_false in E. unfold remaining, length in *.
      cbn [sourceCode_ currentPosition_]. lia. }
    exists u, s'. split; [exact Es|].
    destruct G as [G1 G2]. cbn [sourceCode_ currentPosition_] in G1, G2.
    split; [exact G1|lia]. }
  destruct ((c =? " ")%char || (c =? TAB)%char || (c =? CR)%char).
  { rewrite (advance_inside s V E). apply Step. }
  destruct (c =? LF)%char eqn:El.
  { rewrite (advance_inside s V E). unfold newline.
    cbn [moved sourceCode_ currentPosition_ line_]. apply Step. }
  destruct (c =? "#")%char.
  - destruct (skipComment_total s V) as (u & s1 & Es1 & G1 & _ & P).
    rewrite Es1.
    specialize (P c E Ec El).
    destruct (IH s1) as (u' & s' & Es & G).
    { exact (grows_valid _ _ G1 V). }
    { destruct G1 as [A B]. apply isAtEnd_false in E.
      unfold remaining, length in *. rewrite A. lia. }
    exists u', s'. split; [exact Es|]. eapply grows_trans; eassumption.
  - exists tt, s. auto with scanner.
Qed.

Lemma skipWhitespaceAndComments_total (s : Scanner) :
  valid_source (sourceCode_ s) ->
  yields skipWhitespaceAndComments s (fun _ s' => grows s s').
Proof.
  intros V. unfold skipWhitespaceAndComments.
  apply (skipLoop_total (loop_fuel s) s V (remaining_fuel s)).
Qed.

Lemma identifierContinues_total (s : Scanner) :
  isAtEnd s = false -> exists b, identifierContinues s = Done b s.
Proof.
  intros E. unfold identifierContinues. run.
  destruct (at_inside (currentPosition_ s) s) as (c & _ & Ea).
  { apply isAtEnd_false in E. lia. }
  rewrite Ea. destruct (isAlphaNumeric c); [now exists true|].
  rewrite Ea. eauto.
Qed.

Lemma scanIdentifierLoop_total (fuel : nat) (lexeme : string) (s : Scanner) :
  valid_source (sourceCode_ s) -> (remaining s < fuel)%nat ->
  yields (scanIdentifierLoop fuel lexeme) s (fun _ s' =>
    grows s s' /\ line_ s' = line_ s).
Proof.
  revert lexeme s. induction fuel as [|fuel IH]; intros lexeme s V F; [lia|].
  unfold yields. cbn [scanIdentifierLoop]. run.
  destruct (isAtEnd s) eqn:E.
  { exists lexeme, s. auto with scanner. }
  destruct (identifierContinues_total s E) as [b Eb]. rewrite Eb.
  destruct b.
  - destruct (getChar_inside s V E) as (c & _ & Eg). rewrite Eg.
    destruct (IH (lexeme ++ String c "")%string (moved 1 s)) as (l & s' & Es & G & L).
    { exact V. }
    { rewrite (remaining_moved s E) in F. lia. }
    exists l, s'. split; [exact Es|]. split.
    + eapply grows_trans; [apply grows_moved|exact G].
    + rewrite L. reflexivity.
  - exists lexeme, s. auto with scanner.
Qed.

Lemma scanIdentifier_total (s : Scanner) :
  valid_source (sourceCode_ s) ->
  0 < currentPosition_ s -> currentPosition_ s <= length (sourceCode_ s) ->
  yields scanIdentifier s (fun _ s' => grows s s').
Proof.
  intros V P0 P1. unfold yields, scanIdentifier. run.
  unfold valid_source, npos in V.
  rewrite wrap_pred by lia.
  destruct (at_inside (currentPosition_ s - 1) s) as (c & _ & Ea); [lia|].
  rewrite Ea.
  destruct (scanIdentifierLoop_total (loop_fuel s) (String c "") s)
    as (l & s' & Es & G & _).
  { exact V. }
  { apply remaining_fuel. }
  rewrite Es. eauto.
Qed.

(** A call fails in one way only, at the missing return; otherwise it
    completes, over the same source and with the cursor moved forward
    unless it was at the end. *)
Lemma getNextToken_total (s : Scanner) :
  valid_source (sourceCode_ s) ->
  getNextToken s = NoReturn
  \/ yields getNextToken s (fun _ s' =>
       grows s s' /\ (isAtEnd s = false -> currentPosition_ s < currentPosition_ s')).
Proof.
  intros V. unfold yields, getNextToken. run.
  destruct (skipWhitespaceAndComments_total s V) as (u & s1 & E1 & G1).
  rewrite E1.
  pose proof (grows_valid _ _ G1 V) as V1.
  destruct (isAtEnd s1) eqn:A1.
  { right. rewrite token_total. do 2 eexists. split; [reflexivity|]. split; [exact G1|].
    intros A. apply isAtEnd_false in A. apply isAtEnd_true in A1.
    destruct G1 as [S1 P1]. rewrite S1 in A1. lia. }
  destruct (getChar_inside s1 V1 A1) as (c & _ & Eg). rewrite Eg.
  assert (G2 : grows s (moved 1 s1)).
  { eapply grows_trans; [exact G1|apply grows_moved]. }
  assert (P2 : currentPosition_ s < currentPosition_ (moved 1 s1)).
  { destruct G1 as [_ P1]. cbn [moved currentPosition_]. lia. }
  assert (K : forall s',
             grows (moved 1 s1) s' ->
             grows s s' /\ (isAtEnd s = false -> currentPosition_ s < currentPosition_ s')).
  { intros s' [S3 P3]. split.
    - eapply grows_trans; [exact G2|]. split; assumption.
    - intros _. lia. }
  assert (V2 : valid_source (sourceCode_ (moved 1 s1))) by exact V1.
  unfold dispatch. run.
  repeat match goal with
  | |- context [if (c =? ?x)%char then _ else _] => destruct (c =? x)%char
  end;
  try (right; rewrite token_total; do 2 eexists; split; [reflexivity|];
       apply K; auto with scanner);
  try match goal with
  | |- context [oneOrTwo ?e ?l ?ll ?sh ?sl ?s] =>
      destruct (oneOrTwo_total e l ll sh sl s V2) as (r & s' & E & G);
      right; rewrite E; exists r, s'; split; [reflexivity|]; apply K; exact G
  end.
  destruct (isAlpha c).
  - destruct (scanIdentifier_total (moved 1 s1) V2) as (t & s' & E & G).
    { cbn [moved currentPosition_]. lia. }
    { apply isAtEnd_false in A1. cbn [moved currentPosition_ sourceCode_]. lia. }
    right. rewrite E. exists t, s'. split; [reflexivity|]. apply K; exact G.
  - left. reflexivity.
Qed.

(* ================================================================== *)
(** ** At the end of the source *)

Lemma getNextToken_at_end (s : Scanner) :
  isAtEnd s = true ->
  getNextToken s = Done (mkToken END_OF_FILE "" (line_ s)) s.
Proof.
  intros E. unfold getNextToken, skipWhitespaceAndComments, loop_fuel.
  cbn [skipLoop]. run. rewrite E. run. rewrite E. reflexivity.
Qed.

Lemma pull_at_end (s : Scanner) (n : nat) :
  isAtEnd s = true ->
  pull n s = Done (repeat (mkToken END_OF_FILE "" (line_ s)) n) s.
Proof.
  intros E. induction n as [|n IH]; [reflexivity|].
  cbn [pull repeat]. run. rewrite (getNextToken_at_end s E), IH. reflexivity.
Qed.

Lemma pull_total (n : nat) (s : Scanner) :
  valid_source (sourceCode_ s) ->
  pull n s = NoReturn \/ yields (pull n) s (fun _ s' => grows s s').
Proof.
  revert s. induction n as [|n IH]; intros s V.
  - right. exists [], s. auto with scanner.
  - unfold yields. cbn [pull]. run.
    destruct (getNextToken_total s V) as [E1|(t & s1 & E1 & G1 & _)]; rewrite E1;
      [now left|].
    destruct (IH s1 (grows_valid _ _ G1 V)) as [E2|(ts & s2 & E2 & G2)]; rewrite E2;
      [now left|].
    right. exists (t :: ts), s2. split; [reflexivity|]. eapply grows_trans; eassumption.
Qed.

(* ================================================================== *)
(** ** The first character of a token *)

Lemma skip_stays (s : Scanner) (c : ascii) :
  isAtEnd s = false ->
  subscript (sourceCode_ s) (currentPosition_ s) = Some c ->
  starts_skipped c = false ->
  skipWhitespaceAndComments s = Done tt s.
Proof.
  intros E Ec K. unfold skipWhitespaceAndComments, loop_fuel.
  cbn [skipLoop]. run. rewrite E. unfold at_. rewrite Ec.
  unfold starts_skipped in K.
  destruct (c =? " ")%char; [discriminate|].
  destruct (c =? TAB)%char; [discriminate|].
  destruct (c =? CR)%char; [discriminate|].
  destruct (c =? LF)%char; [discriminate|].
  destruct (c =? "#")%char; [discriminate|].
  reflexivity.
Qed.

(** A call at a character that starts a token consumes that character
    and goes through the switch. *)
Lemma getNextToken_dispatch (s : Scanner) (c : ascii) :
  valid_source (sourceCode_ s) ->
  isAtEnd s = false ->
  subscript (sourceCode_ s) (currentPosition_ s) = Some c ->
  starts_skipped c = false ->
  getNextToken s = dispatch c (moved 1 s).
Proof.
  intros V E Ec K. unfold getNextToken. run.
  rewrite (skip_stays s c E Ec K), E.
  destruct (getChar_inside s V E) as (c' & Ec' & Eg). rewrite Eg.
  congruence.
Qed.

Lemma dispatch_alpha (c : ascii) :
  isAlpha c = true -> dispatch c = scanIdentifier.
Proof.
  destruct c as [[|] [|] [|] [|] [|] [|] [|] [|]]; intros H;
    solve [discriminate H | reflexivity].
Qed.

Lemma alpha_not_skipped (c : ascii) : isAlpha c = true -> starts_skipped c = false.
Proof.
  destruct c as [[|] [|] [|] [|] [|] [|] [|] [|]]; intros H;
    solve [discriminate H | reflexivity].
Qed.

(* ================================================================== *)
(** ** Identifiers and keywords *)

(** The chain of comparisons of [getKeywordType] computes the table of
    the specification. *)
Lemma getKeywordType_classify (w : string) : getKeywordType w = classify w.
Proof.
  unfold getKeywordType, classify, reserved. cbn [find fst snd].
  repeat match goal with
  | |- context [(w =? ?k)%string] =>
      let E := fresh "E" in
      destruct (w =? k)%string eqn:E;
      [apply String.eqb_eq in E; subst w; reflexivity|]
  end.
  reflexivity.
Qed.

Lemma classify_reserved (w : string) :
  In w reserved_words -> In (w, classify w) reserved /\ classify w <> IDENTIFIER.
Proof.
  intros H. unfold reserved_words, reserved in H. cbn [map fst] in H.
  repeat (destruct H as [<-|H];
          [split; [vm_compute; repeat (first [left; reflexivity | right])
                  | vm_compute; discriminate]|]).
  destruct H.
Qed.

Lemma classify_other (w : string) :
  ~ In w reserved_words -> classify w = IDENTIFIER.
Proof.
  intros H. unfold classify.
  destruct (find (fun entry => (w =? fst entry)%string) reserved) as [entry|] eqn:F;
    [|reflexivity].
  apply find_some in F. destruct F as [I E].
  apply String.eqb_eq in E. exfalso. apply H. subst w.
  unfold reserved_words. apply in_map. exact I.
Qed.

Lemma not_alnum_not_underscore (d : ascii) :
  isAlphaNumeric d = false -> (d =? "_")%char = false.
Proof. unfold isAlphaNumeric. intros H. now apply orb_false_elim in H. Qed.

(** The loop of [scanIdentifier] appends the rest of the run to the
    lexeme and stops behind it. *)
Lemma scanIdentifierLoop_run (run : string) :
  forall (fuel : nat) (pre post acc : string) (l : N),
    valid_source (pre ++ run ++ post) ->
    string_forallb isAlphaNumeric run = true ->
    run_ends post = true ->
    (String.length run < fuel)%nat ->
    scanIdentifierLoop fuel acc (mkScanner (pre ++ run ++ post) (length pre) l)
    = Done (acc ++ run)%string
           (mkScanner (pre ++ run ++ post) (length pre + length run) l).
Proof.
  induction run as [|c run IH]; intros fuel pre post acc l V A R F;
    (destruct fuel as [|fuel]; [cbn in F; lia|]).
  - cbn [append] in *. rewrite append_empty_r, length_empty, N.add_0_r.
    cbn [scanIdentifierLoop]. run.
    destruct post as [|d post].
    + unfold isAtEnd. cbn [sourceCode_ currentPosition_].
      rewrite append_empty_r, N.leb_refl. reflexivity.
    + unfold isAtEnd. cbn [sourceCode_ currentPosition_].
      rewrite length_append, length_String.
      destruct (N.leb_spec (length pre + (1 + length post)) (length pre)); [lia|].
      unfold identifierContinues. run. unfold at_. cbn [sourceCode_ currentPosition_].
      rewrite subscript_append.
      cbn [run_ends] in R. apply negb_true_iff in R. rewrite R.
      cbn [sourceCode_ currentPosition_]. rewrite subscript_append.
      rewrite (not_alnum_not_underscore d R). reflexivity.
  - cbn [append string_forallb] in *. apply andb_true_iff in A. destruct A as [Ac A].
    cbn [scanIdentifierLoop]. run.
    unfold isAtEnd at 1. cbn [sourceCode_ currentPosition_].
    rewrite length_append, length_String.
    destruct (N.leb_spec (length pre + (1 + length (run ++ post))) (length pre)); [lia|].
    unfold identifierContinues. run. unfold at_ at 1. cbn [sourceCode_ currentPosition_].
    rewrite subscript_append, Ac.
    destruct (getChar_inside (mkScanner (pre ++ String c (run ++ post)) (length pre) l))
      as (c' & Ec' & Eg).
    { exact V. }
    { apply isAtEnd_false. cbn [sourceCode_ currentPosition_].
      rewrite length_append, length_String. lia. }
    rewrite Eg. cbn [sourceCode_ currentPosition_] in Ec'.
    rewrite subscript_append in Ec'. injection Ec' as <-.
    unfold moved. cbn [sourceCode_ currentPosition_ line_].
    specialize (IH fuel (pre ++ String c "")%string post (acc ++ String c "")%string l).
    rewrite !append_assoc in IH. cbn [append] in IH.
    rewrite length_append, length_String, length_empty in IH.
    rewrite N.add_0_r in IH.
    rewrite IH; [|exact V|exact A|exact R|cbn in F; lia].
    rewrite length_String. f_equal. f_equal. lia.
Qed.

Lemma scanIdentifier_run (pre : string) (c : ascii) (run post : string) (l : N) :
  valid_source (pre ++ String c run ++ post) ->
  string_forallb isAlphaNumeric run = true ->
  run_ends post = true ->
  scanIdentifier (mkScanner (pre ++ String c run ++ post) (length pre + 1) l)
  = Done (mkToken (getKeywordType (String c run)) (String c run) l)
         (mkScanner (pre ++ String c run ++ post) (length pre + length (String c run)) l).
Proof.
  intros V A R. unfold scanIdentifier. run. cbn [currentPosition_].
  assert (B : length pre + 1 < 2 ^ 64).
  { unfold valid_source, npos in V. cbn [append] in V.
    rewrite length_append, length_String in V. lia. }
  rewrite wrap_pred by lia.
  replace (length pre + 1 - 1) with (length pre) by lia.
  unfold at_. cbn [sourceCode_ append]. rewrite subscript_append.
  pose proof (scanIdentifierLoop_run run
                (loop_fuel (mkScanner (pre ++ String c (run ++ post)) (length pre + 1) l))
                (pre ++ String c "")%string post (String c "") l) as L.
  rewrite !append_assoc in L. cbn [append] in L.
  rewrite length_append, length_String, length_empty, N.add_0_r in L.
  rewrite L; [|exact V|exact A|exact R|].
  - cbn [line_]. rewrite length_String. do 2 f_equal. lia.
  - unfold loop_fuel. cbn [sourceCode_].
    assert (Q : forall a b : string, String.length (a ++ b) = (String.length a + String.length b)%nat).
    { intros a b. induction a as [|x a IHa]; cbn; [reflexivity|now rewrite IHa]. }
    rewrite Q. cbn [String.length]. rewrite Q. lia.
Qed.

(* ================================================================== *)
(** ** Whitespace and comments *)

Lemma String_length_append (a b : string) :
  String.length (a ++ b) = (String.length a + String.length b)%nat.
Proof. induction a as [|x a IH]; cbn; [reflexivity|now rewrite IH]. Qed.

Lemma count_newlines_le (src : string) : count_newlines src <= length src.
Proof.
  induction src as [|c src IH]; cbn [count_newlines].
  - rewrite length_empty. lia.
  - rewrite length_String. destruct (c =? LF)%char; lia.
Qed.

Lemma isAtEnd_inside (pre : string) (c : ascii) (rest : string) (l : N) :
  isAtEnd (mkScanner (pre ++ String c rest) (length pre) l) = false.
Proof.
  apply isAtEnd_false. cbn [sourceCode_ currentPosition_].
  rewrite length_append, length_String. lia.
Qed.

Lemma at_inside_append (pre : string) (c : ascii) (rest : string) (l : N) :
  at_ (length pre) (mkScanner (pre ++ String c rest) (length pre) l)
  = Done c (mkScanner (pre ++ String c rest) (length pre) l).
Proof. unfold at_. cbn [sourceCode_]. now rewrite subscript_append. Qed.

Lemma advance_append (pre : string) (c : ascii) (rest : string) (l : N) :
  valid_source (pre ++ String c rest) ->
  advance (mkScanner (pre ++ String c rest) (length pre) l)
  = Done tt (mkScanner ((pre ++ String c "") ++ rest) (length (pre ++ String c "")) l).
Proof.
  intros V. rewrite advance_inside; [|exact V|apply isAtEnd_inside].
  unfold moved. cbn [sourceCode_ currentPosition_ line_].
  rewrite append_assoc. cbn [append].
  rewrite length_append, length_String, length_empty, N.add_0_r. reflexivity.
Qed.

(** The inner loop stops behind the body of the comment. *)
Lemma skipCommentLoop_run (body : string) :
  forall (fuel : nat) (pre rest : string) (l : N),
    valid_source (pre ++ body ++ rest) ->
    string_forallb not_newline body = true ->
    comment_ends rest = true ->
    (String.length body < fuel)%nat ->
    skipCommentLoop fuel (mkScanner (pre ++ body ++ rest) (length pre) l)
    = Done tt (mkScanner ((pre ++ body) ++ rest) (length (pre ++ body)) l).
Proof.
  induction body as [|c body IH]; intros fuel pre rest l V A R F;
    (destruct fuel as [|fuel]; [cbn in F; lia|]).
  - cbn [append] in *. rewrite append_empty_r.
    cbn [skipCommentLoop]. run.
    destruct rest as [|d rest].
    + unfold isAtEnd. cbn [sourceCode_ currentPosition_].
      rewrite append_empty_r, N.leb_refl. reflexivity.
    + rewrite isAtEnd_inside. cbn [currentPosition_]. rewrite at_inside_append.
      cbn [comment_ends] in R. rewrite R. reflexivity.
  - cbn [append string_forallb] in *. apply andb_true_iff in A. destruct A as [Ac A].
    cbn [skipCommentLoop]. run.
    rewrite isAtEnd_inside. cbn [currentPosition_]. rewrite at_inside_append.
    unfold not_newline in Ac. apply negb_true_iff in Ac. rewrite Ac.
    rewrite (advance_append pre c (body ++ rest) l V).
    rewrite (IH fuel (pre ++ String c "")%string rest l);
      [|rewrite append_assoc; exact V|exact A|exact R|cbn in F; lia].
    rewrite (append_assoc pre (String c "") body). reflexivity.
Qed.

(** A text seen from inside a comment splits into the rest of the
    comment and what follows it. *)
Lemma comment_split (r : string) :
  exists body rest,
    r = (body ++ rest)%string
    /\ string_forallb not_newline body = true
    /\ comment_ends rest = true
    /\ blank_from true r = blank_from false rest
    /\ count_newlines r = count_newlines rest
    /\ (String.length rest <= String.length r)%nat.
Proof.
  induction r as [|c r (body & rest & E & A & R & B & C & L)].
  - exists "", "". repeat split; auto.
  - destruct (c =? LF)%char eqn:El.
    + exists "", (String c r). cbn [append blank_from comment_ends string_forallb].
      rewrite El. cbn [negb orb]. rewrite !orb_true_r. repeat split; auto.
    + exists (String c body), rest.
      cbn [append blank_from string_forallb count_newlines String.length].
      unfold not_newline at 1. rewrite El. cbn [negb andb].
      repeat split; auto; try congruence; try lia.
Qed.

(** On a blank text the outer loop runs to the end of the source and
    counts its newlines. *)
Lemma skipLoop_blank (fuel : nat) :
  forall (pre rest : string) (l : N),
    valid_source (pre ++ rest) ->
    blank_from false rest = true ->
    l + count_newlines rest < 2 ^ 64 ->
    (String.length rest < fuel)%nat ->
    skipLoop fuel (mkScanner (pre ++ rest) (length pre) l)
    = Done tt (mkScanner (pre ++ rest) (length (pre ++ rest)) (l + count_newlines rest)).
Proof.
  induction fuel as [|fuel IH]; intros pre rest l V B W F; [lia|].
  destruct rest as [|c rest].
  { cbn [skipLoop]. run. unfold isAtEnd. cbn [sourceCode_ currentPosition_].
    rewrite append_empty_r, N.leb_refl. cbn [count_newlines].
    rewrite N.add_0_r. reflexivity. }
  cbn [skipLoop]. run.
  rewrite isAtEnd_inside. cbn [currentPosition_]. rewrite at_inside_append.
  cbn [blank_from count_newlines String.length] in B, W, F.
  cbn [count_newlines].
  assert (Next : forall l',
            l' + count_newlines rest < 2 ^ 64 ->
            blank_from false rest = true ->
            skipLoop fuel (mkScanner ((pre ++ String c "") ++ rest)
                                     (length (pre ++ String c "")) l')
            = Done tt (mkScanner (pre ++ String c rest)
                                 (length (pre ++ String c rest))
                                 (l' + count_newlines rest))).
  { intros l' W' B'.
    rewrite (IH (pre ++ String c "")%string rest l');
      [|rewrite append_assoc; exact V|exact B'|exact W'|lia].
    rewrite !append_assoc. reflexivity. }
  destruct ((c =? " ")%char || (c =? TAB)%char || (c =? CR)%char) eqn:Ws.
  { assert (El : (c =? LF)%char = false).
    { apply orb_true_iff in Ws. destruct Ws as [Ws|Ws];
        [apply orb_true_iff in Ws; destruct Ws as [Ws|Ws]|];
        apply Ascii.eqb_eq in Ws; subst c; reflexivity. }
    rewrite El in *. cbn [orb] in B. rewrite N.add_0_l in *.
    rewrite (advance_append pre c rest l V). apply Next; assumption. }
  cbn [orb] in B.
  destruct (c =? LF)%char eqn:El.
  { rewrite (advance_append pre c rest l V). unfold newline.
    cbn [sourceCode_ currentPosition_ line_].
    rewrite wrap_small by lia.
    rewrite Next; [|lia|exact B]. do 2 f_equal. lia. }
  rewrite N.add_0_l in W.
  destruct (c =? "#")%char eqn:Eh; [|discriminate B].
  destruct (comment_split rest) as (body & rest' & E & A & R & B' & C & L).
  subst rest.
  assert (Ac : string_forallb not_newline (String c body) = true).
  { cbn [string_forallb]. unfold not_newline at 1. rewrite El. exact A. }
  unfold skipComment.
  change (pre ++ String c (body ++ rest'))%string
    with (pre ++ String c body ++ rest')%string in *.
  rewrite (skipCommentLoop_run (String c body) _ pre rest' l V Ac R).
  2:{ unfold loop_fuel. cbn [sourceCode_].
      rewrite String_length_append. cbn [append String.length].
      rewrite String_length_append. lia. }
  rewrite (IH (pre ++ String c body)%string rest' l).
  - rewrite ?N.add_0_l, C, append_assoc. reflexivity.
  - rewrite append_assoc. exact V.
  - rewrite <- B'. exact B.
  - rewrite <- C. exact W.
  - lia.
Qed.

(* ================================================================== *)
(** * The properties of the scanner *)

(** ** Operators *)

(** C1, as the code has it: the arm for [/] returns DOUBLE_SLASH with the
    lexeme [//] whatever follows, after consuming one character.  A lone
    [/] is not a division token of its own, and [//] is two tokens. *)
Theorem slash_is_always_double_slash :
  dispatch "/" = token DOUBLE_SLASH "//"
  /\ pull 2 (Scanner_new "/")
     = Done [mkToken DOUBLE_SLASH "//" 1; mkToken END_OF_FILE "" 1] (mkScanner "/" 1 1)
  /\ pull 3 (Scanner_new "//")
     = Done [mkToken DOUBLE_SLASH "//" 1;
             mkToken DOUBLE_SLASH "//" 1; mkToken END_OF_FILE "" 1] (mkScanner "//" 2 1).
Proof. repeat split; vm_compute; reflexivity. Qed.

(** C2, as the code has it: [peekChar] reads the character one past the
    cursor, which is two past the character just consumed.  Each of
    [->], [<=], [>=], [==] and [!=] is scanned as two tokens, and [<]
    followed by a character other than [=] takes a [=] that stands one
    place further on, skipping the character in between. *)
Theorem two_character_operators_look_too_far :
  pull 3 (Scanner_new "->")
  = Done [mkToken MINUS "-" 1; mkToken GREATER ">" 1; mkToken END_OF_FILE "" 1]
         (mkScanner "->" 2 1)
  /\ pull 3 (Scanner_new "<=")
     = Done [mkToken LESS "<" 1; mkToken ASSIGN "=" 1; mkToken END_OF_FILE "" 1]
            (mkScanner "<=" 2 1)
  /\ pull 3 (Scanner_new ">=")
     = Done [mkToken GREATER ">" 1; mkToken ASSIGN "=" 1; mkToken END_OF_FILE "" 1]
            (mkScanner ">=" 2 1)
  /\ pull 3 (Scanner_new "==")
     = Done [mkToken ASSIGN "=" 1; mkToken ASSIGN "=" 1; mkToken END_OF_FILE "" 1]
            (mkScanner "==" 2 1)
  /\ pull 3 (Scanner_new "!=")
     = Done [mkToken LEFT_PAREN "(" 1; mkToken ASSIGN "=" 1; mkToken END_OF_FILE "" 1]
            (mkScanner "!=" 2 1)
  /\ getNextToken (Scanner_new "<x=")
     = Done (mkToken LESS_EQUAL "<=" 1) (mkScanner "<x=" 2 1).
Proof. repeat split; vm_compute; reflexivity. Qed.

(** C3, as the code has it: the arm for [!] has an empty else branch and
    no break, so a [!] that is not recognised as [!=] runs into the arm
    for an opening parenthesis and comes back as a LEFT_PAREN token. *)
Theorem bare_bang_is_left_paren :
  pull 2 (Scanner_new "!")
  = Done [mkToken LEFT_PAREN "(" 1; mkToken END_OF_FILE "" 1] (mkScanner "!" 1 1)
  /\ pull 3 (Scanner_new "!x")
     = Done [mkToken LEFT_PAREN "(" 1; mkToken IDENTIFIER "x" 1; mkToken END_OF_FILE "" 1]
            (mkScanner "!x" 2 1).
Proof. repeat split; vm_compute; reflexivity. Qed.

(** C4, as the code has it: a character that no arm of the switch takes
    and that does not start an identifier is consumed, and control then
    reaches the end of [getNextToken] without a return statement: the
    call returns no token, of the error kind or any other. *)
Theorem unrecognized_character_returns_nothing :
  getNextToken (Scanner_new "@") = NoReturn
  /\ getNextToken (Scanner_new "$x") = NoReturn
  /\ getNextToken (mkScanner "a {}" 1 1) = NoReturn
  /\ pull 2 (Scanner_new "a @") = NoReturn.
Proof. repeat split; vm_compute; reflexivity. Qed.

(** ** Identifiers and keywords *)

(** C5: called at the start of a maximal run of letters, digits and
    underscores that begins with a letter or an underscore,
    [getNextToken] returns one token for the whole run, on the current
    line, and leaves the cursor behind the run.  Its kind is the kind the
    keyword table gives when the run is one of the 35 reserved words, and
    IDENTIFIER for any other run. *)
Theorem keyword_or_identifier
    (pre : string) (c : ascii) (run post : string) (l : N) :
  valid_source (pre ++ String c run ++ post) ->
  isAlpha c = true ->
  string_forallb isAlphaNumeric run = true ->
  run_ends post = true ->
  getNextToken (mkScanner (pre ++ String c run ++ post) (length pre) l)
  = Done (mkToken (classify (String c run)) (String c run) l)
         (mkScanner (pre ++ String c run ++ post)
                    (length pre + length (String c run)) l)
  /\ (In (String c run) reserved_words ->
      In (String c run, classify (String c run)) reserved
      /\ classify (String c run) <> IDENTIFIER)
  /\ (~ In (String c run) reserved_words ->
      classify (String c run) = IDENTIFIER)
  /\ List.length reserved_words = 35%nat.
Proof.
  intros V A R E. split; [|split; [apply classify_reserved|split;
                                   [apply classify_other|reflexivity]]].
  rewrite (getNextToken_dispatch _ c).
  - rewrite (dispatch_alpha c A). unfold moved.
    cbn [sourceCode_ currentPosition_ line_].
    rewrite (scanIdentifier_run pre c run post l V R E).
    now rewrite getKeywordType_classify.
  - exact V.
  - cbn [append]. apply isAtEnd_inside.
  - cbn [sourceCode_ currentPosition_ append]. apply subscript_append.
  - apply alpha_not_skipped, A.
Qed.

Lemma keyword_or_identifier_witness :
  getNextToken (mkScanner "x = while_ y" 4 1)
  = Done (mkToken IDENTIFIER "while_" 1) (mkScanner "x = while_ y" 10 1)
  /\ getNextToken (mkScanner "while(1)" 0 3)
     = Done (mkToken KW_WHILE "while" 3) (mkScanner "while(1)" 5 3)
  /\ getNextToken (mkScanner "While(1)" 0 3)
     = Done (mkToken IDENTIFIER "While" 3) (mkScanner "While(1)" 5 3).
Proof.
  split; [|split].
  - apply (keyword_or_identifier "x = " "w" "hile_" " y" 1);
      vm_compute; reflexivity.
  - apply (keyword_or_identifier "" "w" "hile" "(1)" 3);
      vm_compute; reflexivity.
  - apply (keyword_or_identifier "" "W" "hile" "(1)" 3);
      vm_compute; reflexivity.
Defined.

(** ** The cursor *)



(** ** Lines *)

(** C7, as the code has it: the cursor can pass a newline without the
    line counter being incremented.  In the source made of [-], a newline
    and [>], the lookahead of the arm for [-] finds the [>] behind the
    newline and [match] steps over the newline.  The token that starts
    at the [>], which has one newline before it, carries line 1. *)
Theorem newline_passed_uncounted :
  pull 3 (Scanner_new (String "-" (String LF ">")))
  = Done [mkToken ARROW "->" 1; mkToken GREATER ">" 1;
          mkToken END_OF_FILE "" 1]
         (mkScanner (String "-" (String LF ">")) 3 1)
  /\ getNextToken (mkScanner (String "-" (String LF ">")) 2 1)
     = Done (mkToken GREATER ">" 1)
            (mkScanner (String "-" (String LF ">")) 3 1)
  /\ count_newlines (String "-" (String LF "")) = 1.
Proof. repeat split; vm_compute; reflexivity. Qed.

(** C9: on a source that holds nothing but spaces, tabs, carriage
    returns, newlines and comments, the first call of [getNextToken]
    returns the END_OF_FILE token with the empty lexeme, on the line
    that is 1 plus the number of newlines of the source, and leaves the
    cursor at the end. *)
Theorem blank_source_is_end_of_file (src : string) :
  valid_source src ->
  blank src = true ->
  getNextToken (Scanner_new src)
  = Done (mkToken END_OF_FILE "" (1 + count_newlines src))
         (mkScanner src (length src) (1 + count_newlines src)).
Proof.
  intros V B.
  assert (W : 1 + count_newlines src < 2 ^ 64).
  { pose proof (count_newlines_le src). unfold valid_source, npos in V. lia. }
  unfold getNextToken, skipWhitespaceAndComments. run.
  pose proof (skipLoop_blank (loop_fuel (Scanner_new src)) "" src 1) as L.
  cbn [append] in L. rewrite length_empty in L.
  unfold Scanner_new in *. rewrite L; [|exact V|exact B|exact W|].
  - unfold isAtEnd. cbn [sourceCode_ currentPosition_].
    rewrite N.leb_refl. reflexivity.
  - unfold loop_fuel. cbn [sourceCode_]. lia.
Qed.

Lemma blank_source_is_end_of_file_witness :
  getNextToken
    (Scanner_new (" # one" ++ String LF (String TAB (String CR (String LF "#")))))
  = Done (mkToken END_OF_FILE "" 3)
         (mkScanner (" # one" ++ String LF (String TAB (String CR (String LF "#"))))
                    11 3).
Proof.
  apply (blank_source_is_end_of_file
           (" # one" ++ String LF (String TAB (String CR (String LF "#")))));
    vm_compute; reflexivity.
Defined.

(** ** Literals *)

(** C8, as the code has it: the scanner has no arm for a digit or a
    quote.  Both run into the default arm, which takes identifier starts
    only, and from there to the end of [getNextToken] without a return
    statement: no numeric literal, no string literal and no error token
    is returned. *)
Theorem literals_are_not_scanned :
  getNextToken (Scanner_new "42") = NoReturn
  /\ getNextToken (mkScanner "x = 3.14" 4 1) = NoReturn
  /\ getNextToken (Scanner_new "'a'") = NoReturn
  /\ getNextToken (Scanner_new (String DQUOTE "a")) = NoReturn
  /\ dispatch "7" = no_return
  /\ dispatch SQUOTE = no_return
  /\ dispatch DQUOTE = no_return.
Proof. repeat split; vm_compute; reflexivity. Qed.

(** ** Reads of the source *)

(** C10: a read of the source fails exactly when its index lies beyond
    the length of the source.  No read made by [getNextToken], by
    [peekChar] or by any number of [getNextToken] calls in a row does:
    where [peekChar] gets past its guard, the index it reads,
    [currentPosition_ + 1], is at most the length. *)
Theorem reads_stay_in_bounds (s : Scanner) :
  valid_source (sourceCode_ s) ->
  (forall i, at_ i s = BadIndex i <-> length (sourceCode_ s) < i)
  /\ (forall i, getNextToken s <> BadIndex i)
  /\ (forall i, peekChar s <> BadIndex i)
  /\ (isAtEnd s = false ->
      wrap (currentPosition_ s + 1) <= length (sourceCode_ s))
  /\ (forall n i, pull n s <> BadIndex i).
Proof.
  intros V. split; [|split; [|split; [|split]]].
  - intros i. unfold at_. split.
    + intros H. destruct (N.le_gt_cases i (length (sourceCode_ s))) as [L|L]; [|lia].
      destruct (subscript_le _ _ L) as [c Ec]. rewrite Ec in H. discriminate H.
    + intros H. now rewrite (subscript_gt _ _ H).
  - intros i H. destruct (getNextToken_total s V) as [E|(t & s' & E & _)]; congruence.
  - intros i H. destruct (peekChar_total s V) as (c & E). congruence.
  - intros E. apply isAtEnd_false in E. unfold valid_source, npos in V.
    rewrite wrap_small by lia. lia.
  - intros n i H. destruct (pull_total n s V) as [E|(ts & s' & E & _)]; congruence.
Qed.

Lemma reads_stay_in_bounds_witness :
  valid_source "a->b"
  /\ getNextToken (mkScanner "a->b" 1 1) <> BadIndex 5
  /\ peekChar (mkScanner "a->b" 3 1) <> BadIndex 4.
Proof.
  assert (V : valid_source "a->b") by (vm_compute; reflexivity).
  split; [exact V|]. split.
  - apply (proj1 (proj2 (reads_stay_in_bounds (mkScanner "a->b" 1 1) V))).
  - apply (proj1 (proj2 (proj2 (reads_stay_in_bounds (mkScanner "a->b" 3 1) V)))).
Defined.

(* ================================================================== *)
(** * Further properties of the scanner *)

(** ** The arms of the switch *)

Lemma dispatch_single (c : ascii) (k : TokenType) :
  single_char_kind c = Some k ->
  dispatch c = token k (String c "") /\ starts_skipped c = false.
Proof.
  destruct c as [[|] [|] [|] [|] [|] [|] [|] [|]]; intros H;
    vm_compute in H; try discriminate H;
    injection H as <-; split; reflexivity.
Qed.

(** X1: at each of the ten characters [+ * % ( ) [ ] , : .] a call of
    [getNextToken] returns the token of that character, whose lexeme is
    the character itself, on the current line; it consumes that one
    character and nothing else. *)
Theorem single_character_tokens (s : Scanner) (c : ascii) (k : TokenType) :
  valid_source (sourceCode_ s) ->
  isAtEnd s = false ->
  subscript (sourceCode_ s) (currentPosition_ s) = Some c ->
  single_char_kind c = Some k ->
  getNextToken s = Done (mkToken k (String c "") (line_ s)) (moved 1 s).
Proof.
  intros V E Ec K. destruct (dispatch_single c k K) as [D Sk].
  rewrite (getNextToken_dispatch s c V E Ec Sk), D. reflexivity.
Qed.

Lemma single_character_tokens_witness :
  getNextToken (mkScanner "f(x)" 3 2)
  = Done (mkToken RIGHT_PAREN ")" 2) (mkScanner "f(x)" 4 2).
Proof.
  apply (single_character_tokens (mkScanner "f(x)" 3 2) ")" RIGHT_PAREN);
    vm_compute; reflexivity.
Defined.

Lemma subscript_at_length (src : string) : subscript src (length src) = Some NUL.
Proof.
  unfold subscript. rewrite N.ltb_irrefl, N.eqb_refl. reflexivity.
Qed.

(** X2: [peekChar] leaves the scanner as it is.  It returns the null
    character when the cursor is at the end of the source or at its last
    character, and otherwise the character one place behind the cursor,
    not the one at the cursor. *)
Theorem peekChar_reads_one_past_the_cursor (s : Scanner) :
  valid_source (sourceCode_ s) ->
  exists c,
    peekChar s = Done c s
    /\ (length (sourceCode_ s) <= currentPosition_ s + 1 -> c = NUL)
    /\ (currentPosition_ s + 1 < length (sourceCode_ s) ->
        subscript (sourceCode_ s) (currentPosition_ s + 1) = Some c).
Proof.
  intros V. unfold peekChar. run.
  destruct (isAtEnd s) eqn:E; run.
  - exists NUL. split; [reflexivity|]. split; [reflexivity|].
    apply isAtEnd_true in E. lia.
  - apply isAtEnd_false in E. pose proof V as V'. unfold valid_source, npos in V'.
    rewrite wrap_small by lia.
    destruct (at_inside (currentPosition_ s + 1) s) as (c & Sc & Ec); [lia|].
    exists c. split; [exact Ec|]. split; [|intros _; exact Sc].
    intros L. assert (P : currentPosition_ s + 1 = length (sourceCode_ s)) by lia.
    rewrite P, subscript_at_length in Sc. congruence.
Qed.

Lemma peekChar_reads_one_past_the_cursor_witness :
  exists c,
    peekChar (mkScanner "a<=" 1 1) = Done c (mkScanner "a<=" 1 1)
    /\ (3 <= 1 + 1 -> c = NUL)
    /\ (1 + 1 < 3 -> subscript "a<=" (1 + 1) = Some c).
Proof.
  apply (peekChar_reads_one_past_the_cursor (mkScanner "a<=" 1 1)).
  vm_compute. reflexivity.
Defined.

Lemma dispatch_operator (c expected : ascii) (long short : TokenType * string) :
  operator_forms c = Some (expected, long, short) ->
  dispatch c = oneOrTwo expected (fst long) (snd long) (fst short) (snd short)
  /\ starts_skipped c = false.
Proof.
  destruct c as [[|] [|] [|] [|] [|] [|] [|] [|]]; intros H;
    vm_compute in H; try discriminate H;
    injection H as <- <- <-; split; reflexivity.
Qed.

(** What [oneOrTwo] does behind the operator character: the long form
    when the cursor is not at the end and the character one place
    behind it is the expected one. *)
Lemma oneOrTwo_behind (expected : ascii) (long : TokenType) (longLexeme : string)
    (short : TokenType) (shortLexeme : string) (s : Scanner) :
  valid_source (sourceCode_ s) ->
  oneOrTwo expected long longLexeme short shortLexeme s
  = if negb (isAtEnd s)
       && match subscript (sourceCode_ s) (currentPosition_ s + 1) with
          | Some d => (d =? expected)%char
          | None => false
          end
    then Done (mkToken long longLexeme (line_ s)) (moved 1 s)
    else Done (mkToken short shortLexeme (line_ s)) s.
Proof.
  intros V. unfold oneOrTwo, peekChar, match_. run.
  destruct (isAtEnd s) eqn:E; run; cbn [negb andb orb].
  - rewrite E. reflexivity.
  - pose proof V as V'. unfold valid_source, npos in V'.
    pose proof (proj1 (isAtEnd_false s) E) as P.
    rewrite wrap_small by lia.
    destruct (at_inside (currentPosition_ s + 1) s) as (d & Sd & Ed); [lia|].
    rewrite Ed, Sd, E. cbn [orb].
    destruct (d =? expected)%char; cbn [negb]; run.
    + rewrite (advance_inside s V E). reflexivity.
    + reflexivity.
Qed.

(** X3: at [-], [<], [>] and [=] a call of [getNextToken] returns the
    two-character token and moves the cursor by two exactly when the
    operator is not the last character of the source and the character
    two places behind the cursor, not the one next to the operator, is
    the second character of the long form.  In every other case it
    returns the one-character token and moves the cursor by one.  The
    line counter is not changed. *)
Theorem operator_arms_test_the_second_next_character
    (s : Scanner) (c expected : ascii) (long short : TokenType * string) :
  valid_source (sourceCode_ s) ->
  isAtEnd s = false ->
  subscript (sourceCode_ s) (currentPosition_ s) = Some c ->
  operator_forms c = Some (expected, long, short) ->
  getNextToken s
  = if lookahead_hits expected s
    then Done (mkToken (fst long) (snd long) (line_ s)) (moved 2 s)
    else Done (mkToken (fst short) (snd short) (line_ s)) (moved 1 s).
Proof.
  intros V E Ec K. destruct (dispatch_operator c expected long short K) as [D Sk].
  rewrite (getNextToken_dispatch s c V E Ec Sk), D.
  rewrite (oneOrTwo_behind _ _ _ _ _ (moved 1 s) V).
  unfold lookahead_hits, isAtEnd.
  cbn [moved sourceCode_ currentPosition_ line_].
  replace (currentPosition_ s + 1 + 1) with (currentPosition_ s + 2) by lia.
  rewrite N.leb_antisym, negb_involutive.
  replace (moved 1 (moved 1 s)) with (moved 2 s)
    by (unfold moved; cbn [sourceCode_ currentPosition_ line_]; f_equal; lia).
  destruct ((currentPosition_ s + 1 <? length (sourceCode_ s))
            && match subscript (sourceCode_ s) (currentPosition_ s + 2) with
               | Some d => (d =? expected)%char
               | None => false
               end); reflexivity.
Qed.

Lemma operator_arms_test_the_second_next_character_witness :
  getNextToken (mkScanner "a<b=c" 1 1)
  = Done (mkToken LESS_EQUAL "<=" 1) (mkScanner "a<b=c" 3 1)
  /\ getNextToken (mkScanner "a<=c" 1 1)
     = Done (mkToken LESS "<" 1) (mkScanner "a<=c" 2 1).
Proof.
  split.
  - apply (operator_arms_test_the_second_next_character
             (mkScanner "a<b=c" 1 1) "<" "=" (LESS_EQUAL, "<=") (LESS, "<"));
      vm_compute; reflexivity.
  - apply (operator_arms_test_the_second_next_character
             (mkScanner "a<=c" 1 1) "<" "=" (LESS_EQUAL, "<=") (LESS, "<"));
      vm_compute; reflexivity.
Defined.

(** ** Keywords *)

Lemma getKeywordType_reserved (w : string) :
  getKeywordType w <> IDENTIFIER -> In w reserved_words.
Proof.
  intros H. destruct (in_dec string_dec w reserved_words) as [I|I]; [exact I|].
  exfalso. apply H. rewrite getKeywordType_classify. now apply classify_other.
Qed.

(** X4: no two texts are given the same keyword kind by
    [getKeywordType]: when a text is classified as a keyword, any text
    with the same kind is the same text, letter for letter. *)
Theorem keyword_kinds_are_distinct (w1 w2 : string) :
  getKeywordType w1 <> IDENTIFIER ->
  getKeywordType w1 = getKeywordType w2 ->
  w1 = w2.
Proof.
  intros K E.
  pose proof (getKeywordType_reserved w1 K) as I1.
  assert (I2 : In w2 reserved_words).
  { apply getKeywordType_reserved. now rewrite <- E. }
  clear K. unfold reserved_words, reserved in I1, I2. cbn [map fst] in I1, I2.
  repeat (destruct I1 as [<-|I1];
          [repeat (destruct I2 as [<-|I2];
                   [first [reflexivity | vm_compute in E; discriminate E]|]);
           destruct I2|]).
  destruct I1.
Qed.

Lemma keyword_kinds_are_distinct_witness :
  getKeywordType "nonlocal" <> IDENTIFIER /\ "nonlocal" = "nonlocal".
Proof.
  assert (K : getKeywordType "nonlocal" <> IDENTIFIER)
    by (vm_compute; discriminate).
  split; [exact K|].
  apply (keyword_kinds_are_distinct "nonlocal" "nonlocal" K). reflexivity.
Defined.

(** ** Whitespace and comments in front of a token *)

Lemma comment_split_closed (r : string) :
  closed_from true r = true ->
  exists body r2,
    r = (body ++ String LF r2)%string
    /\ string_forallb not_newline body = true
    /\ closed_from false r2 = true
    /\ blank_from true r = blank_from false r2
    /\ count_newlines r = 1 + count_newlines r2
    /\ (String.length r2 < String.length r)%nat.
Proof.
  induction r as [|c r IH]; intros C; [discriminate C|].
  cbn [closed_from] in C. destruct (c =? LF)%char eqn:El.
  - apply Ascii.eqb_eq in El. subst c. exists "", r.
    cbn [append string_forallb blank_from count_newlines String.length negb] in *.
    rewrite Ascii.eqb_refl. cbn [negb]. repeat split; auto.
  - cbn [negb] in C. destruct (IH C) as (body & r2 & E & A & C2 & B & N & L).
    exists (String c body), r2.
    cbn [append string_forallb blank_from count_newlines String.length].
    unfold not_newline at 1. rewrite El. cbn [negb andb].
    repeat split; auto; try congruence; try lia.
Qed.

Lemma skipLoop_stops (fuel : nat) (pre rest : string) (l : N) :
  starts_token rest = true ->
  skipLoop (S fuel) (mkScanner (pre ++ rest) (length pre) l)
  = Done tt (mkScanner (pre ++ rest) (length pre) l).
Proof.
  intros T. cbn [skipLoop]. run. destruct rest as [|d rest].
  - unfold isAtEnd. cbn [sourceCode_ currentPosition_].
    rewrite append_empty_r, N.leb_refl. reflexivity.
  - rewrite isAtEnd_inside. cbn [currentPosition_]. rewrite at_inside_append.
    cbn [starts_token] in T. apply negb_true_iff in T. unfold starts_skipped in T.
    destruct (d =? " ")%char; [discriminate|].
    destruct (d =? TAB)%char; [discriminate|].
    destruct (d =? CR)%char; [discriminate|].
    destruct (d =? LF)%char; [discriminate|].
    destruct (d =? "#")%char; [discriminate|].
    reflexivity.
Qed.

(** Over blank text that is followed by the start of a token the outer
    loop stops behind the blank text, the newlines counted. *)
Lemma skipLoop_prefix (fuel : nat) :
  forall (pre ws rest : string) (l : N),
    valid_source (pre ++ ws ++ rest) ->
    blank_from false ws = true ->
    closed_from false ws = true ->
    starts_token rest = true ->
    l + count_newlines ws < 2 ^ 64 ->
    (String.length ws < fuel)%nat ->
    skipLoop fuel (mkScanner (pre ++ ws ++ rest) (length pre) l)
    = Done tt (mkScanner (pre ++ ws ++ rest) (length (pre ++ ws))
                         (l + count_newlines ws)).
Proof.
  induction fuel as [|fuel IH]; intros pre ws rest l V B C T W F; [lia|].
  destruct ws as [|c ws].
  { cbn [append count_newlines]. rewrite append_empty_r, N.add_0_r.
    apply skipLoop_stops, T. }
  cbn [append] in V |- *. cbn [skipLoop]. run.
  rewrite isAtEnd_inside. cbn [currentPosition_]. rewrite at_inside_append.
  cbn [blank_from closed_from count_newlines String.length] in B, C, W, F.
  cbn [count_newlines].
  assert (Next : forall l',
            l' + count_newlines ws < 2 ^ 64 ->
            blank_from false ws = true ->
            closed_from false ws = true ->
            skipLoop fuel (mkScanner ((pre ++ String c "") ++ ws ++ rest)
                                     (length (pre ++ String c "")) l')
            = Done tt (mkScanner (pre ++ String c (ws ++ rest))
                                 (length (pre ++ String c ws))
                                 (l' + count_newlines ws))).
  { intros l' W' B' C'.
    rewrite (IH (pre ++ String c "")%string ws rest l');
      [|rewrite append_assoc; exact V|exact B'|exact C'|exact T|exact W'|lia].
    rewrite !append_assoc. reflexivity. }
  destruct ((c =? " ")%char || (c =? TAB)%char || (c =? CR)%char) eqn:Ws.
  { assert (El : (c =? LF)%char = false /\ (c =? "#")%char = false).
    { apply orb_true_iff in Ws. destruct Ws as [Ws|Ws];
        [apply orb_true_iff in Ws; destruct Ws as [Ws|Ws]|];
        apply Ascii.eqb_eq in Ws; subst c; split; reflexivity. }
    destruct El as [El Eh]. rewrite El in *. rewrite Eh in C.
    cbn [orb] in B. rewrite N.add_0_l in *.
    rewrite (advance_append pre c (ws ++ rest) l V). apply Next; assumption. }
  cbn [orb] in B.
  destruct (c =? LF)%char eqn:El.
  { assert (Eh : (c =? "#")%char = false).
    { apply Ascii.eqb_eq in El. subst c. reflexivity. }
    rewrite Eh in C.
    rewrite (advance_append pre c (ws ++ rest) l V). unfold newline.
    cbn [sourceCode_ currentPosition_ line_].
    rewrite wrap_small by lia.
    rewrite Next; [|lia|exact B|exact C]. do 2 f_equal. lia. }
  rewrite N.add_0_l in W.
  destruct (c =? "#")%char eqn:Eh; [|discriminate B].
  destruct (comment_split_closed ws C) as (body & r2 & E & A & C2 & B2 & N2 & L).
  subst ws.
  assert (Ac : string_forallb not_newline (String c body) = true).
  { cbn [string_forallb]. unfold not_newline at 1. rewrite El. exact A. }
  unfold skipComment.
  assert (Shape : (pre ++ String c ((body ++ String LF r2) ++ rest)
                   = pre ++ String c body ++ (String LF r2 ++ rest))%string).
  { rewrite append_assoc. reflexivity. }
  rewrite Shape in V |- *.
  rewrite (skipCommentLoop_run (String c body) _ pre (String LF r2 ++ rest) l V Ac).
  2:{ reflexivity. }
  2:{ unfold loop_fuel. cbn [sourceCode_].
      rewrite String_length_append. cbn [append String.length].
      rewrite String_length_append. lia. }
  rewrite (IH (pre ++ String c body)%string (String LF r2) rest l).
  - rewrite N.add_0_l, N2. cbn [count_newlines].
    rewrite Ascii.eqb_refl.
    rewrite !append_assoc. reflexivity.
  - rewrite append_assoc. exact V.
  - cbn [blank_from]. rewrite Ascii.eqb_refl, !orb_true_r. rewrite <- B2. exact B.
  - cbn [closed_from]. exact C2.
  - exact T.
  - cbn [count_newlines]. rewrite Ascii.eqb_refl. rewrite N2 in W. exact W.
  - rewrite String_length_append in F. cbn [String.length] in F |- *. lia.
Qed.

Lemma skip_prefix (pre ws rest : string) (l : N) :
  valid_source (pre ++ ws ++ rest) ->
  blank_from false ws = true ->
  closed_from false ws = true ->
  starts_token rest = true ->
  l + count_newlines ws < 2 ^ 64 ->
  skipWhitespaceAndComments (mkScanner (pre ++ ws ++ rest) (length pre) l)
  = Done tt (mkScanner (pre ++ ws ++ rest) (length (pre ++ ws))
                       (l + count_newlines ws)).
Proof.
  intros V B C T W. unfold skipWhitespaceAndComments.
  apply skipLoop_prefix; try assumption.
  unfold loop_fuel. cbn [sourceCode_]. rewrite !String_length_append. lia.
Qed.

(** X5: when the cursor stands in front of blank text (spaces, tabs,
    carriage returns, newlines and comments, each comment closed by its
    newline) that is followed by the end of the source or by a character
    that is not skipped, [skipWhitespaceAndComments] stops right behind
    the blank text and has added the number of its newlines to the line
    counter. *)
Theorem skip_stops_behind_blank_text (pre ws rest : string) (l : N) :
  valid_source (pre ++ ws ++ rest) ->
  blank ws = true ->
  closed_from false ws = true ->
  starts_token rest = true ->
  l + count_newlines ws < 2 ^ 64 ->
  skipWhitespaceAndComments (mkScanner (pre ++ ws ++ rest) (length pre) l)
  = Done tt (mkScanner (pre ++ ws ++ rest) (length pre + length ws)
                       (l + count_newlines ws)).
Proof.
  intros V B C T W. rewrite <- length_append. now apply skip_prefix.
Qed.

Lemma skip_stops_behind_blank_text_witness :
  skipWhitespaceAndComments
    (mkScanner ("a" ++ (" # c" ++ String LF (String TAB "")) ++ "b") 1 1)
  = Done tt (mkScanner ("a" ++ (" # c" ++ String LF (String TAB "")) ++ "b") 7 2).
Proof.
  apply (skip_stops_behind_blank_text
           "a" (" # c" ++ String LF (String TAB "")) "b" 1);
    vm_compute; reflexivity.
Defined.

(** X6: blank text in front of a token yields no token of its own.  A
    call of [getNextToken] made in front of the blank text returns what
    a call made right behind it returns when the line counter is ahead
    by the newlines of the blank text, and ends in the same state. *)
Theorem blank_text_yields_no_token (pre ws rest : string) (l : N) :
  valid_source (pre ++ ws ++ rest) ->
  blank ws = true ->
  closed_from false ws = true ->
  starts_token rest = true ->
  l + count_newlines ws < 2 ^ 64 ->
  getNextToken (mkScanner (pre ++ ws ++ rest) (length pre) l)
  = getNextToken (mkScanner (pre ++ ws ++ rest) (length pre + length ws)
                            (l + count_newlines ws)).
Proof.
  intros V B C T W. unfold getNextToken. run.
  rewrite (skip_prefix pre ws rest l V B C T W).
  rewrite <- length_append.
  assert (Stay : skipWhitespaceAndComments
                   (mkScanner (pre ++ ws ++ rest) (length (pre ++ ws))
                              (l + count_newlines ws))
                 = Done tt (mkScanner (pre ++ ws ++ rest) (length (pre ++ ws))
                                      (l + count_newlines ws))).
  { unfold skipWhitespaceAndComments, loop_fuel.
    rewrite <- append_assoc. apply skipLoop_stops, T. }
  rewrite Stay. reflexivity.
Qed.

Lemma blank_text_yields_no_token_witness :
  getNextToken (mkScanner ("a" ++ (" # c" ++ String LF (String TAB "")) ++ "if") 1 1)
  = getNextToken (mkScanner ("a" ++ (" # c" ++ String LF (String TAB "")) ++ "if") 7 2).
Proof.
  apply (blank_text_yields_no_token
           "a" (" # c" ++ String LF (String TAB "")) "if" 1);
    vm_compute; reflexivity.
Defined.

(** ** Where a call leaves the scanner *)

Ltac run_in H :=
  unfold bind, gets, ret, out_of_fuel, no_return in H; cbn beta iota in H.

Lemma within_moved (s : Scanner) : isAtEnd s = false -> within (moved 1 s).
Proof.
  intros E. apply isAtEnd_false in E. unfold within.
  cbn [moved sourceCode_ currentPosition_]. lia.
Qed.

Lemma skipCommentLoop_settles (fuel : nat) (s s' : Scanner) :
  valid_source (sourceCode_ s) ->
  skipCommentLoop fuel s = Done tt s' -> s' = s \/ within s'.
Proof.
  revert s. induction fuel as [|fuel IH]; intros s V H; [discriminate H|].
  cbn [skipCommentLoop] in H. run_in H.
  destruct (isAtEnd s) eqn:E.
  { injection H as <-. now left. }
  destruct (at_inside (currentPosition_ s) s) as (c & _ & Ea).
  { apply isAtEnd_false in E. lia. }
  rewrite Ea in H. destruct (c =? LF)%char.
  { injection H as <-. now left. }
  rewrite (advance_inside s V E) in H. right.
  destruct (IH (moved 1 s) V H) as [->|W]; [now apply within_moved|exact W].
Qed.

(** Where the outer loop stops: at the end of the source or in front of
    a character it does not skip; and if it has moved at all, within the
    source. *)
Lemma skipLoop_settles (fuel : nat) (s s' : Scanner) :
  valid_source (sourceCode_ s) ->
  skipLoop fuel s = Done tt s' ->
  (s' = s \/ within s')
  /\ (isAtEnd s' = true
      \/ exists c, subscript (sourceCode_ s') (currentPosition_ s') = Some c
                   /\ starts_skipped c = false).
Proof.
  revert s. induction fuel as [|fuel IH]; intros s V H; [discriminate H|].
  cbn [skipLoop] in H. run_in H.
  destruct (isAtEnd s) eqn:E.
  { injection H as <-. split; [now left|now left]. }
  destruct (at_inside (currentPosition_ s) s) as (c & Ec & Ea).
  { apply isAtEnd_false in E. lia. }
  rewrite Ea in H.
  assert (Later : forall s1, valid_source (sourceCode_ s1) -> within s1 ->
            skipLoop fuel s1 = Done tt s' ->
            (s' = s \/ within s')
            /\ (isAtEnd s' = true
                \/ exists c, subscript (sourceCode_ s') (currentPosition_ s') = Some c
                             /\ starts_skipped c = false)).
  { intros s1 V1 W1 H1. destruct (IH s1 V1 H1) as [[->|W] Stop];
      (split; [right; assumption|exact Stop]). }
  destruct ((c =? " ")%char || (c =? TAB)%char || (c =? CR)%char) eqn:Ws.
  { rewrite (advance_inside s V E) in H.
    apply (Later (moved 1 s) V (within_moved s E) H). }
  destruct (c =? LF)%char eqn:El.
  { rewrite (advance_inside s V E) in H. unfold newline in H.
    cbn [moved sourceCode_ currentPosition_ line_] in H.
    refine (Later _ _ _ H); [exact V|].
    apply isAtEnd_false in E. unfold within.
    cbn [sourceCode_ currentPosition_]. lia. }
  destruct (c =? "#")%char eqn:Eh.
  - destruct (skipComment_total s V) as (u & s1 & Es1 & G1 & _ & _).
    rewrite Es1 in H. destruct u.
    refine (Later s1 (grows_valid _ _ G1 V) _ H).
    destruct (skipCommentLoop_settles _ _ _ V Es1) as [->|W]; [|exact W].
    apply isAtEnd_false in E. unfold within. lia.
  - injection H as <-. split; [now left|]. right. exists c. split; [exact Ec|].
    unfold starts_skipped. rewrite El, Eh.
    apply orb_false_iff in Ws. destruct Ws as [Ws Ecr].
    apply orb_false_iff in Ws. destruct Ws as [Esp Etab].
    rewrite Esp, Etab, Ecr. reflexivity.
Qed.

Lemma scanIdentifierLoop_settles (fuel : nat) (lexeme lexeme' : string) (s s' : Scanner) :
  valid_source (sourceCode_ s) ->
  scanIdentifierLoop fuel lexeme s = Done lexeme' s' -> s' = s \/ within s'.
Proof.
  revert lexeme s. induction fuel as [|fuel IH]; intros lexeme s V H; [discriminate H|].
  cbn [scanIdentifierLoop] in H. run_in H.
  destruct (isAtEnd s) eqn:E.
  { injection H as _ <-. now left. }
  destruct (identifierContinues_total s E) as [b Eb]. rewrite Eb in H.
  destruct b.
  - destruct (getChar_inside s V E) as (c & _ & Eg). rewrite Eg in H. right.
    destruct (IH _ (moved 1 s) V H) as [->|W]; [now apply within_moved|exact W].
  - injection H as _ <-. now left.
Qed.

Lemma getKeywordType_not_end (w : string) : getKeywordType w <> END_OF_FILE.
Proof.
  unfold getKeywordType.
  repeat match goal with
  | |- context [(w =? ?k)%string] => destruct (w =? k)%string; [discriminate|]
  end.
  discriminate.
Qed.

(** What [scanIdentifier] returns: a token on the line of the scanner,
    whose kind is not END_OF_FILE. *)
Lemma scanIdentifier_shape (s : Scanner) (t : Token) (s' : Scanner) :
  valid_source (sourceCode_ s) ->
  scanIdentifier s = Done t s' ->
  (s' = s \/ within s')
  /\ getLine t = line_ s' /\ getType t <> END_OF_FILE.
Proof.
  intros V H. unfold scanIdentifier in H. run_in H.
  destruct (at_ (wrap (currentPosition_ s + (2 ^ 64 - 1))) s) as [c s0| | |] eqn:Ea;
    try discriminate H.
  assert (s0 = s) as ->.
  { unfold at_ in Ea.
    destruct (subscript (sourceCode_ s) (wrap (currentPosition_ s + (2 ^ 64 - 1))));
      [now injection Ea|discriminate Ea]. }
  destruct (scanIdentifierLoop (loop_fuel s) (String c "") s) as [lx s1| | |] eqn:El;
    try discriminate H.
  injection H as <- <-. cbn [getLine getType].
  split; [exact (scanIdentifierLoop_settles _ _ _ _ _ V El)|].
  split; [reflexivity|apply getKeywordType_not_end].
Qed.

Lemma oneOrTwo_shape (expected : ascii) (long : TokenType) (longLexeme : string)
    (short : TokenType) (shortLexeme : string)
    (s : Scanner) (t : Token) (s' : Scanner) :
  valid_source (sourceCode_ s) -> within s ->
  long <> END_OF_FILE -> short <> END_OF_FILE ->
  oneOrTwo expected long longLexeme short shortLexeme s = Done t s' ->
  within s' /\ getLine t = line_ s' /\ getType t <> END_OF_FILE.
Proof.
  intros V W NL NS H. rewrite (oneOrTwo_behind _ _ _ _ _ s V) in H.
  destruct (isAtEnd s) eqn:E; cbn [negb andb] in H.
  - injection H as <- <-. split; [exact W|]. split; [reflexivity|exact NS].
  - destruct (match subscript (sourceCode_ s) (currentPosition_ s + 1) with
              | Some d => (d =? expected)%char
              | None => false
              end);
      injection H as <- <-.
    + split; [now apply within_moved|]. split; [reflexivity|exact NL].
    + split; [exact W|]. split; [reflexivity|exact NS].
Qed.

(** Where a call of [getNextToken] that returns leaves the scanner and
    what it returns: unless the scanner was at the end and stays as it
    is, the cursor ends within the source; the token is on the line the
    scanner is left on, and an END_OF_FILE token has the empty lexeme and
    leaves the scanner at the end. *)
Lemma getNextToken_shape (s : Scanner) (t : Token) (s' : Scanner) :
  valid_source (sourceCode_ s) ->
  getNextToken s = Done t s' ->
  ((isAtEnd s = true /\ s' = s) \/ within s')
  /\ getLine t = line_ s'
  /\ (getType t = END_OF_FILE -> getLexeme t = "" /\ isAtEnd s' = true).
Proof.
  intros V H. unfold getNextToken in H. run_in H.
  destruct (skipWhitespaceAndComments_total s V) as ([] & s1 & E1 & G1).
  rewrite E1 in H.
  pose proof (grows_valid _ _ G1 V) as V1.
  destruct (skipLoop_settles _ _ _ V E1) as [Set1 _].
  destruct (isAtEnd s1) eqn:A1.
  { rewrite token_total in H. injection H as <- <-. split.
    - destruct Set1 as [->|W1]; [left; auto|right; exact W1].
    - cbn [getLine getType getLexeme]. auto. }
  destruct (getChar_inside s1 V1 A1) as (c & _ & Eg). rewrite Eg in H.
  pose proof (within_moved s1 A1) as W2.
  assert (V2 : valid_source (sourceCode_ (moved 1 s1))) by exact V1.
  assert (Fine : within s' /\ getLine t = line_ s' /\ getType t <> END_OF_FILE ->
                 ((isAtEnd s = true /\ s' = s) \/ within s')
                 /\ getLine t = line_ s'
                 /\ (getType t = END_OF_FILE -> getLexeme t = "" /\ isAtEnd s' = true)).
  { intros (W & L & N). split; [right; exact W|]. split; [exact L|].
    intros Q. contradiction. }
  apply Fine. clear Fine. unfold dispatch in H.
  repeat match type of H with
  | context [if (c =? ?x)%char then _ else _] => destruct (c =? x)%char
  end;
  try (rewrite token_total in H; injection H as <- <-;
       split; [exact W2|]; split; [reflexivity|discriminate]);
  try (apply (oneOrTwo_shape _ _ _ _ _ _ _ _ V2 W2) in H;
       [exact H|discriminate|discriminate]).
  destruct (isAlpha c).
  - destruct (scanIdentifier_shape _ _ _ V2 H) as ([->|W] & L & N).
    + split; [exact W2|]. auto.
    + split; [exact W|]. auto.
  - discriminate H.
Qed.

Lemma pull_settles (n : nat) :
  forall (s : Scanner) (ts : list Token) (s' : Scanner),
    valid_source (sourceCode_ s) -> within s ->
    pull n s = Done ts s' -> within s'.
Proof.
  induction n as [|n IH]; intros s ts s' V W H.
  - injection H as _ <-. exact W.
  - cbn [pull] in H. run_in H.
    destruct (getNextToken_total s V) as [E1|(t & s1 & E1 & G1 & _)];
      rewrite E1 in H; [discriminate H|].
    destruct (pull n s1) as [ts1 s2| | |] eqn:E2; try discriminate H.
    injection H as _ <-.
    apply (IH s1 ts1 s2); [exact (grows_valid _ _ G1 V)| |exact E2].
    destruct (getNextToken_shape s _ _ V E1) as [[[_ ->]|W1] _]; assumption.
Qed.

(** X7: the cursor never runs past the end of the source.  From a
    scanner whose cursor lies within the source, as the constructor
    leaves it, any number of [getNextToken] calls ends with the cursor
    within the same source. *)
Theorem cursor_stays_within_the_source
    (n : nat) (s : Scanner) (ts : list Token) (s' : Scanner) :
  valid_source (sourceCode_ s) ->
  currentPosition_ s <= length (sourceCode_ s) ->
  pull n s = Done ts s' ->
  sourceCode_ s' = sourceCode_ s
  /\ currentPosition_ s' <= length (sourceCode_ s').
Proof.
  intros V W H. split; [|exact (pull_settles n s ts s' V W H)].
  destruct (pull_total n s V) as [E0|(ts0 & s0 & E0 & G0 & _)]; [congruence|].
  rewrite E0 in H. injection H as _ <-. exact G0.
Qed.

Lemma cursor_stays_within_the_source_witness :
  sourceCode_ (mkScanner "a <= b" 6 1) = "a <= b"
  /\ currentPosition_ (mkScanner "a <= b" 6 1) <= length "a <= b".
Proof.
  apply (cursor_stays_within_the_source 4 (Scanner_new "a <= b")
           [mkToken IDENTIFIER "a" 1; mkToken LESS "<" 1;
            mkToken ASSIGN "=" 1; mkToken IDENTIFIER "b" 1]
           (mkScanner "a <= b" 6 1));
    vm_compute; try reflexivity; discriminate.
Defined.

(** X8: END_OF_FILE is returned only with the whole source consumed,
    and it is final.  When a call of [getNextToken] returns a token of
    kind END_OF_FILE, the lexeme of the token is empty, the cursor is at
    the end of the source, and every later call returns that same token
    and leaves the scanner as it is. *)
Theorem end_of_file_is_final (s : Scanner) (t : Token) (s' : Scanner) :
  valid_source (sourceCode_ s) ->
  getNextToken s = Done t s' ->
  getType t = END_OF_FILE ->
  getLexeme t = ""
  /\ isAtEnd s' = true
  /\ forall n, pull n s' = Done (repeat t n) s'.
Proof.
  intros V H K.
  destruct (getNextToken_shape s _ _ V H) as (_ & L & Q).
  destruct (Q K) as [X A].
  split; [exact X|]. split; [exact A|].
  intros n. rewrite (pull_at_end s' n A).
  destruct t as [ty lx ln]. cbn [getType getLexeme getLine] in *.
  now subst.
Qed.

Lemma end_of_file_is_final_witness :
  isAtEnd (mkScanner "x  " 3 1) = true
  /\ pull 2 (mkScanner "x  " 3 1)
     = Done [mkToken END_OF_FILE "" 1; mkToken END_OF_FILE "" 1]
            (mkScanner "x  " 3 1).
Proof.
  assert (F := end_of_file_is_final (mkScanner "x  " 1 1)
                 (mkToken END_OF_FILE "" 1) (mkScanner "x  " 3 1)).
  destruct F as (_ & A & P); try (vm_compute; reflexivity).
  split; [exact A|exact (P 2%nat)].
Defined.



Lemma skip_at_end (s : Scanner) :
  isAtEnd s = true -> skipWhitespaceAndComments s = Done tt s.
Proof.
  intros E. unfold skipWhitespaceAndComments, loop_fuel.
  cbn [skipLoop]. run. rewrite E. reflexivity.
Qed.

(** X10: [skipWhitespaceAndComments] completes from every state, over
    the same source and with the cursor not moved back.  It stops at the
    end of the source or in front of a character that is none of space,
    tab, carriage return, newline and [#], and run again from where it
    stopped it changes nothing. *)
Theorem skip_stops_at_a_token_start (s : Scanner) :
  valid_source (sourceCode_ s) ->
  exists s',
    skipWhitespaceAndComments s = Done tt s'
    /\ sourceCode_ s' = sourceCode_ s
    /\ currentPosition_ s <= currentPosition_ s'
    /\ (isAtEnd s' = true
        \/ exists c, subscript (sourceCode_ s') (currentPosition_ s') = Some c
                     /\ starts_skipped c = false)
    /\ skipWhitespaceAndComments s' = Done tt s'.
Proof.
  intros V.
  destruct (skipWhitespaceAndComments_total s V) as ([] & s' & E & G1 & G2).
  exists s'. split; [exact E|]. split; [exact G1|]. split; [exact G2|].
  destruct (skipLoop_settles _ _ _ V E) as [_ Stop].
  split; [exact Stop|].
  destruct (isAtEnd s') eqn:A; [now apply skip_at_end|].
  destruct Stop as [Stop|(c & Ec & Sk)]; [discriminate Stop|].
  exact (skip_stays s' c A Ec Sk).
Qed.

Lemma skip_stops_at_a_token_start_witness :
  exists s',
    skipWhitespaceAndComments (mkScanner "a  #b" 1 1) = Done tt s'
    /\ sourceCode_ s' = "a  #b"
    /\ 1 <= currentPosition_ s'
    /\ (isAtEnd s' = true
        \/ exists c, subscript (sourceCode_ s') (currentPosition_ s') = Some c
                     /\ starts_skipped c = false)
    /\ skipWhitespaceAndComments s' = Done tt s'.
Proof.
  apply (skip_stops_at_a_token_start (mkScanner "a  #b" 1 1)).
  vm_compute. reflexivity.
Defined.

(** ** Reaching the end *)




(** ** Calls that return a token *)




